(** * Mixed-precision training hooks (mmdet/core/fp16/hooks.py)

    A shallow embedding of the FP16 hooks: [Fp16PrepareHook.before_run],
    [Fp16OptimizerHook.after_train_iter], [copy_in_params], [set_grad],
    [wrap_fp16_model], [patch_norm_fp32] and [patch_forward_module].

    Python objects live in a store: tensors and parameters are addressed by
    location, so that the fp32 master copy and the fp16 model parameters are
    distinct objects and aliasing is visible.  Every function of the module
    is a computation in a state-and-exception monad over that store; calls
    into the tensor framework are recorded in a log, in call order.

    Tensor values are exact rationals ([Qc]): rounding of half and single
    precision is outside the model, a dtype is a tag. *)

From Stdlib Require Import ZArith QArith Qabs Qcanon Lia.
From stdpp Require Import base option list strings gmap.


(** ** Tensors, parameters and the object store *)

Inductive dtype := Half | Float.

#[global] Instance dtype_eq_dec : EqDecision dtype.
Proof. solve_decision. Defined.

(** The payload of a tensor: what [t.data] holds. *)
Record tdata := TData {
  t_dtype : dtype;
  t_size : list nat;
  t_vals : list Qc
}.

(** A tensor object as autograd sees it: [.data], [.grad], [.requires_grad]. *)
Record tensor := TensorObj {
  data : tdata;
  grad : option tdata;
  requires_grad : bool
}.

(** Objects of the store are named by their position in it. *)
Abbreviation loc := nat (only parsing).

Inductive pyval :=
| PStr (s : string)
| PNum (q : Qc)
| PBool (b : bool)
| PNone.

Inductive exn :=
| KeyError (key : string)
| AttributeError (name : string)
| IndexError
| TypeError (msg : string)
| ValueError (msg : string)
| RuntimeError (msg : string)
| InvalidRef (p : loc).

(** Framework calls, as they appear in the log. *)
Inductive event :=
| EvClone (src new : loc)
| EvHalf (ps : list loc)
| EvFloat (ps : list loc)
| EvOptimizerInit (cls : string) (params : list loc) (kwargs : gmap string pyval)
| EvModelZeroGrad
| EvOptimizerZeroGrad
| EvMul (s : Qc)
| EvBackward
| EvNew (p : loc) (size : list nat)
| EvCopyGrad (dst src : loc)
| EvAllreduce (ps : list loc) (coalesce : bool) (bucket_size_mb : Z)
| EvDiv (p : loc) (s : Qc)
| EvClip (ps : list loc)
| EvStep
| EvCopyData (dst src : loc).

Record world := World {
  tensors : list tensor;
  dicts : list (gmap string pyval);
  log : list event
}.

Definition set_tensors (h : list tensor) (w : world) : world :=
  World h (dicts w) (log w).
Definition set_dicts (d : list (gmap string pyval)) (w : world) : world :=
  World (tensors w) d (log w).
Definition add_log (ev : event) (w : world) : world :=
  World (tensors w) (dicts w) (log w ++ [ev]).

(** ** The monad: store passing with exceptions.

    There is no handler: the source has no [try]. *)

Definition M (A : Type) : Type := world -> (exn + A) * world.

Definition ret {A} (a : A) : M A := fun w => (inr a, w).

Definition bind {A B} (m : M A) (k : A -> M B) : M B :=
  fun w => match m w with
           | (inl e, w') => (inl e, w')
           | (inr a, w') => k a w'
           end.

Definition raise {A} (e : exn) : M A := fun w => (inl e, w).

Declare Scope py_scope.
Delimit Scope py_scope with py.
Notation "x <- c ;; k" := (bind c (fun x => k))
  (at level 100, c at next level, right associativity) : py_scope.
Notation "c ;;; k" := (bind c (fun _ => k))
  (at level 100, right associativity) : py_scope.
Open Scope py_scope.

Section Loops.
Context {A B : Type}.

(** [for x in l: f x] *)
Definition for_each (f : A -> M unit) : list A -> M unit :=
  fix go l :=
    match l with
    | [] => ret tt
    | x :: l' => f x ;;; go l'
    end.

(** [[f x for x in l]] *)
Definition map_m (f : A -> M B) : list A -> M (list B) :=
  fix go l :=
    match l with
    | [] => ret []
    | x :: l' => y <- f x ;; ys <- go l' ;; ret (y :: ys)
    end.
End Loops.

Definition emit (ev : event) : M unit := fun w => (inr tt, add_log ev w).

Definition deref (p : loc) : M tensor :=
  fun w => match tensors w !! p with
           | Some t => (inr t, w)
           | None => (inl (InvalidRef p), w)
           end.

Definition store (p : loc) (t : tensor) : M unit :=
  fun w => (inr tt, set_tensors (<[p := t]> (tensors w)) w).

Definition alloc (t : tensor) : M loc :=
  fun w => (inr (length (tensors w)), set_tensors (tensors w ++ [t]) w).

(** ** Tensor primitives *)

Definition with_vals (d : tdata) (vs : list Qc) : tdata :=
  TData (t_dtype d) (t_size d) vs.

Definition to_dtype (ty : dtype) (d : tdata) : tdata :=
  TData ty (t_size d) (t_vals d).

(** [dst.copy_(src)]: values of [src] written into [dst], which keeps its
    dtype; sizes must agree (a source that would first be broadcast to the
    size of [dst] is refused here). *)
Definition tdata_copy_ (dst src : tdata) : exn + tdata :=
  if decide (t_size dst = t_size src)
  then inr (with_vals dst (t_vals src))
  else inl (RuntimeError "The size of tensor a must match the size of tensor b").

(** [t.half()] / [t.float()] under [Module._apply]: the data and, when
    present, the gradient are cast. *)
Definition tensor_cast (ty : dtype) (t : tensor) : tensor :=
  TensorObj (to_dtype ty (data t)) (to_dtype ty <$> grad t) (requires_grad t).

Definition param_cast (ty : dtype) (p : loc) : M unit :=
  t <- deref p ;; store p (tensor_cast ty t).

(** [param.data.clone()]: a new tensor object, no gradient, not trainable. *)
Definition clone_data (p : loc) : M loc :=
  t <- deref p ;;
  q <- alloc (TensorObj (data t) None false) ;;
  emit (EvClone p q) ;;;
  ret q.

Definition set_requires_grad (p : loc) (b : bool) : M unit :=
  t <- deref p ;; store p (TensorObj (data t) (grad t) b).

(** [p.grad.detach_(); p.grad.zero_()] for a parameter that has a gradient *)
Definition zero_grad_param (p : loc) : M unit :=
  t <- deref p ;;
  match grad t with
  | None => ret tt
  | Some g => store p (TensorObj (data t) (Some (with_vals g (map (fun _ => 0%Qc) (t_vals g))))
                                 (requires_grad t))
  end.

(** [p.grad.div_(s)] *)
Definition grad_div_ (p : loc) (s : Qc) : M unit :=
  t <- deref p ;;
  match grad t with
  | None => raise (AttributeError "div_")
  | Some g => emit (EvDiv p s) ;;;
              store p (TensorObj (data t) (Some (with_vals g (map (fun x => (x / s)%Qc) (t_vals g))))
                                 (requires_grad t))
  end.

(** [dst.data.copy_(src.data)] *)
Definition data_copy_ (dst src : loc) : M unit :=
  td <- deref dst ;;
  ts <- deref src ;;
  emit (EvCopyData dst src) ;;;
  match tdata_copy_ (data td) (data ts) with
  | inl e => raise e
  | inr d => store dst (TensorObj d (grad td) (requires_grad td))
  end.

(** [dst.grad.data.copy_(src.grad.data)] *)
Definition grad_copy_ (dst src : loc) : M unit :=
  td <- deref dst ;;
  ts <- deref src ;;
  match grad td, grad ts with
  | Some gd, Some gs =>
      emit (EvCopyGrad dst src) ;;;
      match tdata_copy_ gd gs with
      | inl e => raise e
      | inr g => store dst (TensorObj (data td) (Some g) (requires_grad td))
      end
  | _, _ => raise (AttributeError "data")
  end.

(** ** The loss and autograd

    A loss carries its value and, when it is attached to a graph, the
    gradient of that value with respect to each leaf it depends on. *)

Record loss_t := Loss {
  loss_value : Qc;
  loss_grad_fn : option (list (loc * list Qc))
}.

(** [loss * s]: the product node scales value and gradients by [s]. *)
Definition loss_mul (l : loss_t) (s : Qc) : M loss_t :=
  emit (EvMul s) ;;;
  ret (Loss (loss_value l * s)%Qc
            (map (fun '(p, g) => (p, map (fun x => (x * s)%Qc) g)) <$> loss_grad_fn l)).

(** Gradient accumulation into a leaf: assigned when the leaf has no
    gradient, added otherwise. *)
Definition accumulate_grad (p : loc) (g : list Qc) : M unit :=
  t <- deref p ;;
  match grad t with
  | None => store p (TensorObj (data t) (Some (with_vals (data t) g)) (requires_grad t))
  | Some old => store p (TensorObj (data t)
                                   (Some (with_vals old (zip_with Qcplus (t_vals old) g)))
                                   (requires_grad t))
  end.

Definition backward (l : loss_t) : M unit :=
  emit EvBackward ;;;
  match loss_grad_fn l with
  | None => raise (RuntimeError "element 0 of tensors does not require grad and does not have a grad_fn")
  | Some gs => for_each (fun '(p, g) => accumulate_grad p g) gs
  end.

(** ** Modules *)

(** Arguments and results of a forward function. *)
#[warnings="-register-all"]
Inductive value :=
| VTensor (t : tdata)
| VTuple (l : list value)
| VDict (l : list (string * value))
| VObj (name : string).

(** A forward function takes the packed positional arguments and the
    packed keyword arguments. *)
Definition forward_fn : Type := value -> value -> M value.

(** What [isinstance] can tell about a module. *)
Inductive mkind := BatchNorm | GroupNorm | OtherModule.

#[warnings="-register-all"]
Inductive nn_module := NNModule {
  m_kind : mkind;
  m_parameters : list loc;          (* the module's own parameters *)
  fp16_enabled : option bool;       (* the attribute, when the module has it *)
  forward : forward_fn;
  m_children : list nn_module
}.

(** [isinstance(module, (nn.modules.batchnorm._BatchNorm, nn.GroupNorm))] *)
Definition is_norm (k : mkind) : bool :=
  match k with
  | BatchNorm | GroupNorm => true
  | OtherModule => false
  end.

(** [module.modules()]: the module, then its descendants, depth first. *)
Fixpoint modules (m : nn_module) : list nn_module :=
  m :: flat_map modules (m_children m).

(** Every parameter slot under a module, in registration order. *)
Fixpoint all_params (m : nn_module) : list loc :=
  m_parameters m ++ flat_map all_params (m_children m).

(** A parameter object shared between slots is yielded once, at its first
    occurrence. *)
Fixpoint first_occurrences (seen l : list loc) : list loc :=
  match l with
  | [] => []
  | p :: l' => if bool_decide (p ∈ seen) then first_occurrences seen l'
               else p :: first_occurrences (p :: seen) l'
  end.

(** [module.parameters()] *)
Definition parameters (m : nn_module) : list loc :=
  first_occurrences [] (all_params m).

(** The data-parallel wrapper held in [runner.model]: it has the wrapped
    network as its [.module] and no parameters of its own. *)
Record data_parallel := DataParallel { module_of : nn_module }.

Definition dp_parameters (net : data_parallel) : list loc :=
  parameters (module_of net).

(** ** Optimizer, runner and hooks *)

Record optimizer_t := Optimizer {
  opt_cls : string;                     (* the class found in torch.optim *)
  opt_kwargs : gmap string pyval;       (* the keyword arguments it was built with *)
  param_groups : list (list loc)        (* each group's ['params'] *)
}.

Record Runner := MkRunner {
  r_model : data_parallel;
  r_optimizer : optimizer_t;
  r_outputs : gmap string loss_t
}.

Record Fp16PrepareHook := MkFp16PrepareHook {
  ph_optimizer : loc                    (* self.optimizer: the config dict *)
}.

Record Fp16OptimizerHook := MkFp16OptimizerHook {
  grad_clip : option (gmap string pyval);
  coalesce : bool;
  bucket_size_mb : Z;
  loss_scale : Qc;
  distributed : bool
}.

(** ** The collaborators

    The all-reduce, gradient clipping, the optimizers and the allocator are
    outside this module: they act on the tensor store and may raise. *)
Class Framework := {
  uninitialized : list nat -> list Qc;
  allreduce_grads_impl : list loc -> bool -> Z -> list tensor -> exn + list tensor;
  clip_grads_impl : gmap string pyval -> list loc -> list tensor -> exn + list tensor;
  optimizer_step_impl : optimizer_t -> list tensor -> exn + list tensor;
  torch_optim_has : string -> bool;
  optimizer_init_check : string -> list loc -> gmap string pyval -> option exn
}.

(** ** Python dictionaries in the store *)

Definition dict_copy (d : loc) : M loc :=
  fun w => match dicts w !! d with
           | Some m => (inr (length (dicts w)), set_dicts (dicts w ++ [m]) w)
           | None => (inl (InvalidRef d), w)
           end.

Definition dict_pop (d : loc) (k : string) : M pyval :=
  fun w => match dicts w !! d with
           | Some m =>
               match m !! k with
               | Some v => (inr v, set_dicts (<[d := delete k m]> (dicts w)) w)
               | None => (inl (KeyError k), w)
               end
           | None => (inl (InvalidRef d), w)
           end.

Definition dict_items (d : loc) : M (gmap string pyval) :=
  fun w => match dicts w !! d with
           | Some m => (inr m, w)
           | None => (inl (InvalidRef d), w)
           end.

Section Hooks.
Context {F : Framework}.

(** [cast_tensor_type] lives in [mmdet/core/fp16/utils.py]. *)
Variable cast_tensor_type : value -> dtype -> dtype -> value.

Definition from_impl (r : exn + list tensor) : M unit :=
  fun w => match r with
           | inl e => (inl e, w)
           | inr h => (inr tt, set_tensors h w)
           end.

Definition allreduce_grads (params : list loc) (coalesce : bool) (bucket_size_mb : Z) : M unit :=
  emit (EvAllreduce params coalesce bucket_size_mb) ;;;
  (fun w => from_impl (allreduce_grads_impl params coalesce bucket_size_mb (tensors w)) w).

(** [OptimizerHook.clip_grads], inherited *)
Definition clip_grads (cfg : gmap string pyval) (params : list loc) : M unit :=
  emit (EvClip params) ;;;
  (fun w => from_impl (clip_grads_impl cfg params (tensors w)) w).

Definition optimizer_step (o : optimizer_t) : M unit :=
  emit EvStep ;;;
  (fun w => from_impl (optimizer_step_impl o (tensors w)) w).

(** [getattr(torch.optim, name)] *)
Definition getattr_optim (name : pyval) : M string :=
  match name with
  | PStr s => if torch_optim_has s then ret s else raise (AttributeError s)
  | _ => raise (TypeError "getattr(): attribute name must be string")
  end.

(** [optimizer_cls(params, **kwargs)] *)
Definition optimizer_new (cls : string) (params : list loc) (kwargs : gmap string pyval) : M optimizer_t :=
  emit (EvOptimizerInit cls params kwargs) ;;;
  match optimizer_init_check cls params kwargs with
  | Some e => raise e
  | None => ret (Optimizer cls kwargs [params])
  end.

(** [t.grad = t.data.new(...)] with the size of [t.data]: same dtype and
    size, contents as the allocator leaves them *)
Definition new_grad (p : loc) : M unit :=
  t <- deref p ;;
  emit (EvNew p (t_size (data t))) ;;;
  store p (TensorObj (data t)
                     (Some (TData (t_dtype (data t)) (t_size (data t))
                                  (uninitialized (t_size (data t)))))
                     (requires_grad t)).

(** [model.half()], [module.float()] *)
Definition module_half (m : nn_module) : M unit :=
  emit (EvHalf (all_params m)) ;;;
  for_each (param_cast Half) (all_params m).

Definition module_float (m : nn_module) : M unit :=
  emit (EvFloat (all_params m)) ;;;
  for_each (param_cast Float) (all_params m).

(** [model.zero_grad()], [optimizer.zero_grad()] *)
Definition module_zero_grad (net : data_parallel) : M unit :=
  emit EvModelZeroGrad ;;;
  for_each zero_grad_param (dp_parameters net).

Definition optimizer_zero_grad (o : optimizer_t) : M unit :=
  emit EvOptimizerZeroGrad ;;;
  for_each (fun group => for_each zero_grad_param group) (param_groups o).

(** *** hooks.py *)

Definition patch_forward_module (old_forward : forward_fn) (src_type dst_type : dtype)
    (convert_output : bool) : forward_fn :=
  fun args kwargs =>
    output <- old_forward (cast_tensor_type args src_type dst_type)
                          (cast_tensor_type kwargs src_type dst_type) ;;
    if convert_output then ret (cast_tensor_type output dst_type src_type)
    else ret output.

Fixpoint patch_norm_fp32 (module : nn_module) : M nn_module :=
  match module with
  | NNModule kind ps flag fwd children =>
      fwd' <- (if is_norm kind
               then module_float module ;;;
                    ret (patch_forward_module fwd Half Float true)
               else ret fwd) ;;
      children' <- map_m patch_norm_fp32 children ;;
      ret (NNModule kind ps flag fwd' children')
  end.

(** [for m in model.modules(): if hasattr(m, 'fp16_enabled'): m.fp16_enabled = True] *)
Fixpoint set_fp16_enabled (m : nn_module) : nn_module :=
  match m with
  | NNModule kind ps flag fwd children =>
      NNModule kind ps (match flag with Some _ => Some true | None => None end) fwd
             (map set_fp16_enabled children)
  end.

Definition wrap_fp16_model (model : nn_module) : M nn_module :=
  module_half model ;;;
  model <- patch_norm_fp32 model ;;
  ret (set_fp16_enabled model).

Definition copy_in_params (fp16_net : data_parallel) (fp32_weight : list loc) : M unit :=
  for_each (fun '(net_param, fp32_weight_param) => data_copy_ net_param fp32_weight_param)
           (zip (dp_parameters fp16_net) fp32_weight).

(** The body of the loop of [set_grad]. *)
Definition set_grad_pair (param_fp32 param_fp16 : loc) : M unit :=
  t16 <- deref param_fp16 ;;
  match grad t16 with
  | None => ret tt
  | Some _ =>
      t32 <- deref param_fp32 ;;
      (match grad t32 with
       | None => new_grad param_fp32
       | Some _ => ret tt
       end) ;;;
      grad_copy_ param_fp32 param_fp16
  end.

Definition set_grad (fp16_net : data_parallel) (fp32_weight : list loc) : M unit :=
  for_each (fun '(param_fp32, param_fp16) => set_grad_pair param_fp32 param_fp16)
           (zip fp32_weight (dp_parameters fp16_net)).

Definition before_run (self : Fp16PrepareHook) (runner : Runner) : M Runner :=
  let model := module_of (r_model runner) in
  param_copy <- map_m clone_data (parameters model) ;;
  for_each (fun '(param, net_param) =>
              t <- deref net_param ;; set_requires_grad param (requires_grad t))
           (zip param_copy (parameters model)) ;;;
  model' <- wrap_fp16_model model ;;
  optimizer_cfg <- dict_copy (ph_optimizer self) ;;
  optimizer_type <- dict_pop optimizer_cfg "type" ;;
  optimizer_cls <- getattr_optim optimizer_type ;;
  kwargs <- dict_items optimizer_cfg ;;
  opt <- optimizer_new optimizer_cls param_copy kwargs ;;
  ret (MkRunner (DataParallel model') opt (r_outputs runner)).

(** [p.grad.div_(s)] for the parameters that have a gradient *)
Definition unscale_param (s : Qc) (p : loc) : M unit :=
  t <- deref p ;;
  match grad t with
  | Some _ => grad_div_ p s
  | None => ret tt
  end.

Definition after_train_iter (self : Fp16OptimizerHook) (runner : Runner) : M unit :=
  fp32_weight <- (match param_groups (r_optimizer runner) with
                  | group :: _ => ret group
                  | [] => raise IndexError
                  end) ;;
  module_zero_grad (r_model runner) ;;;
  optimizer_zero_grad (r_optimizer runner) ;;;
  loss <- (match r_outputs runner !! "loss" with
           | Some l => ret l
           | None => raise (KeyError "loss")
           end) ;;
  scaled_loss <- loss_mul loss (loss_scale self) ;;
  backward scaled_loss ;;;
  set_grad (r_model runner) fp32_weight ;;;
  (if distributed self
   then allreduce_grads fp32_weight (coalesce self) (bucket_size_mb self)
   else ret tt) ;;;
  for_each (unscale_param (loss_scale self)) fp32_weight ;;;
  (match grad_clip self with
   | Some cfg => clip_grads cfg fp32_weight
   | None => ret tt
   end) ;;;
  optimizer_step (r_optimizer runner) ;;;
  copy_in_params (r_model runner) fp32_weight.

End Hooks.

(** ** A reference instantiation

    One worker, plain SGD, and the p = 1 case of gradient-norm clipping:
    enough to run the hooks on concrete stores. *)

Definition numel (size : list nat) : nat := foldr Nat.mul 1 size.

Definition abs_sum (vs : list Qc) : Qc :=
  foldr (fun x acc => (Q2Qc (Qabs (this x)) + acc)%Qc) 0%Qc vs.

Definition scale_grad (c : Qc) (t : tensor) : tensor :=
  TensorObj (data t) ((fun g => with_vals g (map (fun x => (x * c)%Qc) (t_vals g))) <$> grad t)
            (requires_grad t).

(** [clip_grad_norm_(filter(lambda p: p.requires_grad, params), max_norm, norm_type=1)] *)
Definition clip_l1 (cfg : gmap string pyval) (params : list loc) (h : list tensor)
    : exn + list tensor :=
  match cfg !! "max_norm", cfg !! "norm_type" with
  | Some (PNum max_norm), Some (PNum norm_type) =>
      if Qeq_bool (this norm_type) 1 then
        let clipped := List.filter (fun p => match h !! p with
                                             | Some t => requires_grad t && bool_decide (is_Some (grad t))
                                             | None => false
                                             end) params in
        let total_norm :=
          foldr (fun p acc => match h !! p with
                              | Some t => (from_option (fun g => abs_sum (t_vals g)) 0 (grad t) + acc)%Qc
                              | None => acc
                              end) 0%Qc clipped in
        let clip_coef := (max_norm / (total_norm + Q2Qc (1 # 1000000)))%Qc in
        match (clip_coef ?= 1)%Qc with
        | Lt => inr (foldr (fun p h' => from_option (fun t => <[p := scale_grad clip_coef t]> h') h' (h' !! p))
                           h clipped)
        | _ => inr h
        end
      else inl (ValueError "norm_type")
  | _, _ => inl (TypeError "clip_grad_norm_")
  end.

(** [p.data.add_(-lr, p.grad)] for every parameter with a gradient *)
Definition sgd_step (o : optimizer_t) (h : list tensor) : exn + list tensor :=
  match opt_kwargs o !! "lr" with
  | Some (PNum lr) =>
      inr (foldr (fun p h' =>
                    match h' !! p with
                    | Some (TensorObj d (Some g) rg) =>
                        <[p := TensorObj (with_vals d (zip_with (fun x dx => (x - lr * dx)%Qc)
                                                                (t_vals d) (t_vals g)))
                                         (Some g) rg]> h'
                    | _ => h'
                    end) h (concat (param_groups o)))
  | _ => inl (TypeError "lr")
  end.

#[local] Instance single_worker : Framework := {|
  uninitialized size := replicate (numel size) 0%Qc;
  allreduce_grads_impl _ _ _ h := inr h;
  clip_grads_impl := clip_l1;
  optimizer_step_impl := sgd_step;
  torch_optim_has s := bool_decide (s ∈ ["SGD"; "Adam"]);
  optimizer_init_check _ params _ :=
    match params with
    | [] => Some (ValueError "optimizer got an empty parameter list")
    | _ => None
    end
|}.

(** Modelled from the spec: [cast_tensor_type] of [mmdet/core/fp16/utils.py]
    is not part of the sources at hand.  The wrapped forward "casts
    half-precision tensor arguments to full precision": a tensor of the
    source type is given the destination type, containers are traversed,
    anything else is returned as it is. *)
Fixpoint cast_tensor_type (inputs : value) (src_type dst_type : dtype) : value :=
  match inputs with
  | VTensor t => if decide (t_dtype t = src_type) then VTensor (to_dtype dst_type t)
                 else VTensor t
  | VTuple l => VTuple (map (fun v => cast_tensor_type v src_type dst_type) l)
  | VDict l => VDict (map (fun kv => (kv.1, cast_tensor_type kv.2 src_type dst_type)) l)
  | VObj name => VObj name
  end.

Definition q (n : Z) (d : positive) : Qc := Q2Qc (n # d).

(** A small network: a convolution-like root with one weight, a batch norm
    with weight and bias, and a head that carries the [fp16_enabled] flag. *)
Definition id_forward : forward_fn := fun args _ => ret args.

Definition net0 : nn_module :=
  NNModule OtherModule [0] None id_forward
    [ NNModule BatchNorm [1; 2] None id_forward [];
      NNModule OtherModule [3] (Some false) id_forward [] ].

Definition sgd_cfg : gmap string pyval :=
  <["type" := PStr "SGD"]> (<["lr" := PNum (q 1 10)]> ∅).

Definition world0 : world :=
  World [ TensorObj (TData Float [2] [q 1 1; q 2 1]) None true;
          TensorObj (TData Float [1] [q 1 1]) None true;
          TensorObj (TData Float [1] [q 0 1]) None false;
          TensorObj (TData Float [2] [q 3 1; q (-1) 2]) None true ]
        [ sgd_cfg ] [].

Definition loss0 : loss_t :=
  Loss (q 5 1) (Some [ (0, [q 1 4; q (-3) 1]); (1, [q 2 1]); (3, [q 1 8; q 7 1]) ]).

Definition runner0 : Runner :=
  MkRunner (DataParallel net0) (Optimizer "SGD" (delete "type" sgd_cfg) [[0; 1; 2; 3]])
           (<["loss" := loss0]> ∅).

Definition prepare_hook0 : Fp16PrepareHook := MkFp16PrepareHook 0.

Definition optimizer_hook0 : Fp16OptimizerHook :=
  MkFp16OptimizerHook None true (-1) (q 512 1) true.

(** The same hook with clipping, on one worker. *)
Definition clip_cfg : gmap string pyval :=
  <["max_norm" := PNum (q 1 1)]> (<["norm_type" := PNum (q 1 1)]> ∅).

Definition clipping_hook : Fp16OptimizerHook :=
  MkFp16OptimizerHook (Some clip_cfg) true (-1) (q 512 1) false.

Definition plain_hook : Fp16OptimizerHook :=
  MkFp16OptimizerHook None true (-1) (q 512 1) false.

(** A framework whose optimizer runs out of memory. *)
Definition failing_step : Framework := {|
  uninitialized size := replicate (numel size) 0%Qc;
  allreduce_grads_impl _ _ _ h := inr h;
  clip_grads_impl := clip_l1;
  optimizer_step_impl _ _ := inl (RuntimeError "CUDA out of memory");
  torch_optim_has s := bool_decide (s ∈ ["SGD"; "Adam"]);
  optimizer_init_check _ _ _ := None
|}.

(** A batch norm that holds a child module, in half precision. *)
Definition nested_norm : nn_module :=
  NNModule BatchNorm [0] None id_forward [ NNModule OtherModule [1] None id_forward [] ].

Definition nested_world : world :=
  World [ TensorObj (TData Half [1] [q 1 1]) None true;
          TensorObj (TData Half [1] [q 2 1]) None true ] [] [].

(** A store in the middle of [set_grad]: the first model parameter has a
    gradient, its master copy has none yet. *)
Definition world_grads : world :=
  World [ TensorObj (TData Half [2] [q 1 1; q 2 1]) (Some (TData Half [2] [q 128 1; q (-1536) 1])) true;
          TensorObj (TData Float [1] [q 1 1]) None true;
          TensorObj (TData Float [2] [q 1 1; q 2 1]) None true;
          TensorObj (TData Float [1] [q 1 1]) None true ] [] [].

Definition two_params : data_parallel :=
  DataParallel (NNModule OtherModule [0; 1] None id_forward []).

(** The store and runner after [before_run]. *)
Definition prepared0 : (exn + Runner) * world :=
  before_run cast_tensor_type prepare_hook0 runner0 world0.

(** The runner and the store that [before_run] leaves. *)
Definition runner1 : Runner :=
  match prepared0.1 with
  | inr r => r
  | inl _ => runner0
  end.

Definition world1 : world := prepared0.2.

(** ** Vocabulary of the statements *)

(** The body of the loop of [set_grad], on a zipped pair. *)
Definition set_grad_body `{Framework} : loc * loc -> M unit :=
  fun '(param_fp32, param_fp16) => set_grad_pair param_fp32 param_fp16.

(** The body of the loop of [copy_in_params]. *)
Definition copy_in_body : loc * loc -> M unit :=
  fun '(net_param, fp32_weight_param) => data_copy_ net_param fp32_weight_param.

(** The sizes of the tensors of a store, and the checks on them that make
    the element-wise copies go through. *)
Definition sizes (h : list tensor) : list (list nat) :=
  map (fun t => t_size (data t)) h.

Definition same_size (sz : list (list nat)) (pair : loc * loc) : bool :=
  match sz !! pair.1, sz !! pair.2 with
  | Some a, Some b => bool_decide (a = b)
  | _, _ => false
  end.

Definition grad_sized (t : tensor) : bool :=
  match grad t with
  | Some g => bool_decide (t_size g = t_size (data t))
  | None => true
  end.

(** Events of [set_grad] over the given pairs: a gradient buffer allocated
    for a destination, a gradient copied along a pair. *)
Definition grad_copy_event (pairs : list (loc * loc)) (ev : event) : Prop :=
  match ev with
  | EvNew p _ => p ∈ pairs.*1
  | EvCopyGrad dst src => (dst, src) ∈ pairs
  | _ => False
  end.

Definition is_allreduce (ev : event) : bool :=
  match ev with
  | EvAllreduce _ _ _ => true
  | _ => false
  end.

(** [p.grad is not None] in a store *)
Definition has_grad (h : list tensor) (p : loc) : bool :=
  match h !! p with
  | Some t => bool_decide (is_Some (grad t))
  | None => false
  end.

(** The statements of [after_train_iter] that follow the lookup of
    [fp32_weight], in order. *)
Definition iter_steps `{Framework} (self : Fp16OptimizerHook) (runner : Runner)
    (fp32_weight : list loc) : list (M unit) :=
  [ module_zero_grad (r_model runner);
    optimizer_zero_grad (r_optimizer runner);
    (loss <- (match r_outputs runner !! "loss" with
              | Some l => ret l
              | None => raise (KeyError "loss")
              end) ;;
     scaled_loss <- loss_mul loss (loss_scale self) ;;
     backward scaled_loss);
    set_grad (r_model runner) fp32_weight;
    (if distributed self
     then allreduce_grads fp32_weight (coalesce self) (bucket_size_mb self)
     else ret tt);
    for_each (unscale_param (loss_scale self)) fp32_weight;
    (match grad_clip self with
     | Some cfg => clip_grads cfg fp32_weight
     | None => ret tt
     end);
    optimizer_step (r_optimizer runner);
    copy_in_params (r_model runner) fp32_weight ].

(** The store after a cast of the parameters [ps]. *)
Definition cast_at (ty : dtype) (h : list tensor) (p : loc) : list tensor :=
  match h !! p with
  | Some t => <[p := tensor_cast ty t]> h
  | None => h
  end.

Definition cast_all (ty : dtype) (ps : list loc) (h : list tensor) : list tensor :=
  foldl (cast_at ty) h ps.

(** The parameters under normalization modules, and the [float()] calls of
    [patch_norm_fp32], in visiting order. *)
Fixpoint norm_params (m : nn_module) : list loc :=
  (if is_norm (m_kind m) then all_params m else [])
  ++ flat_map norm_params (m_children m).

Fixpoint float_events (m : nn_module) : list event :=
  (if is_norm (m_kind m) then [EvFloat (all_params m)] else [])
  ++ flat_map float_events (m_children m).

(** The module tree that [patch_norm_fp32] leaves. *)
Fixpoint patched `{Framework} (cast : value -> dtype -> dtype -> value) (m : nn_module)
    : nn_module :=
  match m with
  | NNModule kind ps flag fwd children =>
      NNModule kind ps flag
        (if is_norm kind then patch_forward_module cast fwd Half Float true else fwd)
        (map (patched cast) children)
  end.

(** Every reference of the model points into the store. *)
Definition in_store (h : list tensor) (ps : list loc) : bool :=
  forallb (fun p => p <? length h) ps.

(** How [patch_norm_fp32] relates a module to what it leaves in its place. *)
Definition patched_from `{Framework} (cast : value -> dtype -> dtype -> value)
    (old new : nn_module) : Prop :=
  m_kind new = m_kind old
  /\ m_parameters new = m_parameters old
  /\ fp16_enabled new = fp16_enabled old
  /\ length (m_children new) = length (m_children old)
  /\ forward new = if is_norm (m_kind old)
                   then patch_forward_module cast (forward old) Half Float true
                   else forward old.
#[global] Instance tensor_inhabited : Inhabited tensor :=
  populate (TensorObj (TData Float [] []) None false).

(** The clones [before_run] takes of the parameters [ps] of a store [h]:
    as [clone()] returns them, and once [requires_grad] is set. *)
Definition raw_clones (h : list tensor) (ps : list loc) : list tensor :=
  map (fun p => TensorObj (data (h !!! p)) None false) ps.

Definition master_copy (h : list tensor) (ps : list loc) : list tensor :=
  map (fun p => TensorObj (data (h !!! p)) None (requires_grad (h !!! p))) ps.

(** The last statements of [before_run]: the optimizer built from the
    config over [param_copy]. *)
Definition build_optimizer `{Framework} (self : Fp16PrepareHook) (runner : Runner)
    (param_copy : list loc) (model' : nn_module) : M Runner :=
  optimizer_cfg <- dict_copy (ph_optimizer self) ;;
  optimizer_type <- dict_pop optimizer_cfg "type" ;;
  optimizer_cls <- getattr_optim optimizer_type ;;
  kwargs <- dict_items optimizer_cfg ;;
  opt <- optimizer_new optimizer_cls param_copy kwargs ;;
  ret (MkRunner (DataParallel model') opt (r_outputs runner)).

(** The body of the loop that sets [requires_grad] on the clones. *)
Definition flag_body : loc * loc -> M unit :=
  fun '(param, net_param) =>
    t <- deref net_param ;; set_requires_grad param (requires_grad t).

(** The tensor store [before_run] leaves, from the store [h] it starts in. *)
Definition prepared_store (m : nn_module) (h : list tensor) : list tensor :=
  cast_all Float (norm_params m)
    (cast_all Half (all_params m) (h ++ master_copy h (parameters m))).

(** Loops that rewrite one tensor object per element: the store after the
    objects named by [l] were rewritten by [f], in order. *)
Definition update_at {B} (f : B -> tensor -> tensor) (h : list tensor) (pb : loc * B)
    : list tensor :=
  match h !! pb.1 with
  | Some t => <[pb.1 := f pb.2 t]> h
  | None => h
  end.

Definition update_all {B} (f : B -> tensor -> tensor) (l : list (loc * B))
    (h : list tensor) : list tensor :=
  foldl (update_at f) h l.

(** What [zero_()], gradient accumulation and [div_] do to an object. *)
Definition zero_t (t : tensor) : tensor :=
  TensorObj (data t) ((fun g => with_vals g (map (fun _ => 0%Qc) (t_vals g))) <$> grad t)
            (requires_grad t).

Definition accumulate_t (g : list Qc) (t : tensor) : tensor :=
  TensorObj (data t)
            (Some (match grad t with
                   | None => with_vals (data t) g
                   | Some old => with_vals old (zip_with Qcplus (t_vals old) g)
                   end))
            (requires_grad t).

Definition unscale_t (s : Qc) (t : tensor) : tensor :=
  TensorObj (data t) ((fun g => with_vals g (map (fun x => (x / s)%Qc) (t_vals g))) <$> grad t)
            (requires_grad t).

(** Lines 63 to 75 of [after_train_iter]: all that precedes
    [runner.optimizer.step()]. *)
Definition gradients_for_step `{Framework} (self : Fp16OptimizerHook) (runner : Runner)
    : M (list loc) :=
  fp32_weight <- (match param_groups (r_optimizer runner) with
                  | group :: _ => ret group
                  | [] => raise IndexError
                  end) ;;
  module_zero_grad (r_model runner) ;;;
  optimizer_zero_grad (r_optimizer runner) ;;;
  loss <- (match r_outputs runner !! "loss" with
           | Some l => ret l
           | None => raise (KeyError "loss")
           end) ;;
  scaled_loss <- loss_mul loss (loss_scale self) ;;
  backward scaled_loss ;;;
  set_grad (r_model runner) fp32_weight ;;;
  (if distributed self
   then allreduce_grads fp32_weight (coalesce self) (bucket_size_mb self)
   else ret tt) ;;;
  for_each (unscale_param (loss_scale self)) fp32_weight ;;;
  (match grad_clip self with
   | Some cfg => clip_grads cfg fp32_weight
   | None => ret tt
   end) ;;;
  ret fp32_weight.

(** The master parameters are objects of their own, and the leaves of the
    loss are parameters of the model. *)
Definition master_separate (fp32_weight fp16 leaves : list loc) : bool :=
  bool_decide (NoDup fp32_weight)
  && forallb (fun p => negb (bool_decide (p ∈ fp16))) fp32_weight
  && bool_decide (NoDup leaves)
  && forallb (fun p => bool_decide (p ∈ fp16)) leaves.

(** A gradient already held by a leaf has as many entries as the gradient
    that backpropagation adds to it. *)
Definition grads_conform (h : list tensor) (gs : list (loc * list Qc)) : bool :=
  forallb (fun '(p, g) => match h !! p with
                          | Some t => match grad t with
                                      | Some old => length (t_vals old) =? length g
                                      | None => true
                                      end
                          | None => true
                          end) gs.

(** How [wrap_fp16_model] relates a module to what it leaves in its place:
    the forward of a normalization module is wrapped, an [fp16_enabled]
    attribute that exists is set. *)
Definition converted_from (cast : value -> dtype -> dtype -> value)
    (old new : nn_module) : Prop :=
  m_kind new = m_kind old
  /\ m_parameters new = m_parameters old
  /\ length (m_children new) = length (m_children old)
  /\ fp16_enabled new = match fp16_enabled old with
                        | Some _ => Some true
                        | None => None
                        end
  /\ forward new = if is_norm (m_kind old)
                   then patch_forward_module cast (forward old) Half Float true
                   else forward old.


(** PyTorch's rule for [dst.copy_(src)] on sizes that differ: [src] is
    broadcast to the size of [dst].  Sizes are aligned at the last
    dimension; [src] may have fewer dimensions than [dst], and each of its
    dimensions must be the one of [dst] or 1. *)
Fixpoint expands_to (src_rev dst_rev : list nat) : bool :=
  match src_rev, dst_rev with
  | [], _ => true
  | _ :: _, [] => false
  | s :: src', d :: dst' =>
      (bool_decide (s = d) || bool_decide (s = 1)) && expands_to src' dst'
  end.

Definition broadcastable (src dst : list nat) : bool :=
  expands_to (rev src) (rev dst).

(** Dtype and shape of a tensor object: what a cast may change and what it
    keeps. *)
Definition dtypes_of (t : tensor) : dtype * option dtype :=
  (t_dtype (data t), t_dtype <$> grad t).

Definition shape_of (t : tensor) : list nat * option (list nat) * bool :=
  (t_size (data t), t_size <$> grad t, requires_grad t).

(** *** More fixtures for the reference instantiation *)

(** The model after [wrap_fp16_model] alone, and the store it leaves. *)
Definition wrapped0 : (exn + nn_module) * world :=
  wrap_fp16_model cast_tensor_type net0 world0.

Definition net1 : nn_module :=
  match wrapped0.1 with
  | inr m => m
  | inl _ => net0
  end.

(** A runner whose optimizer has no parameter group, one whose outputs
    have no loss, and one whose loss is detached from the graph. *)
Definition runner_no_groups : Runner :=
  MkRunner (r_model runner1) (Optimizer "SGD" ∅ []) (r_outputs runner1).

Definition runner_no_loss : Runner :=
  MkRunner (r_model runner1) (r_optimizer runner1) ∅.

Definition runner_detached : Runner :=
  MkRunner (r_model runner1) (r_optimizer runner1) (<["loss" := Loss (q 5 1) None]> ∅).

(** A config that names an optimizer [torch.optim] does not have. *)
Definition lamb_cfg : gmap string pyval :=
  <["type" := PStr "Lamb"]> sgd_cfg.

Definition world_lamb : world :=
  World (tensors world0) [ lamb_cfg ] [].

(** [before_run] run a second time, on what the first run left. *)
Definition prepared1 : (exn + Runner) * world :=
  before_run cast_tensor_type prepare_hook0 runner1 world1.

Definition runner2 : Runner :=
  match prepared1.1 with
  | inr r => r
  | inl _ => runner1
  end.

Definition world2 : world := prepared1.2.
(** ** Reasoning about computations *)

Lemma bind_ok {A B} (m : M A) (k : A -> M B) w a w1 :
  m w = (inr a, w1) -> bind m k w = k a w1.
Proof. intros H. unfold bind. by rewrite H. Qed.

Lemma bind_err {A B} (m : M A) (k : A -> M B) w e w1 :
  m w = (inl e, w1) -> bind m k w = (inl e, w1).
Proof. intros H. unfold bind. by rewrite H. Qed.

Lemma bind_ok_inv {A B} (m : M A) (k : A -> M B) w b w2 :
  bind m k w = (inr b, w2) ->
  exists a w1, m w = (inr a, w1) /\ k a w1 = (inr b, w2).
Proof.
  unfold bind. destruct (m w) as [[e|a] w1]; [discriminate|]. eauto.
Qed.

Lemma bind_err_inv {A B} (m : M A) (k : A -> M B) w e w2 :
  bind m k w = (inl e, w2) ->
  m w = (inl e, w2) \/ exists a w1, m w = (inr a, w1) /\ k a w1 = (inl e, w2).
Proof.
  unfold bind. destruct (m w) as [[e'|a] w1]; [intros [= -> ->]; by left|].
  right. eauto.
Qed.

Lemma for_each_app {A} (f : A -> M unit) l1 l2 w :
  for_each f (l1 ++ l2) w = (for_each f l1 ;;; for_each f l2) w.
Proof.
  revert w. induction l1 as [|x l1 IH]; intros w; [done|].
  change (bind (f x) (fun _ => for_each f (l1 ++ l2)) w
          = bind (bind (f x) (fun _ => for_each f l1)) (fun _ => for_each f l2) w).
  unfold bind. destruct (f x w) as [[e|[]] w1]; [done|].
  rewrite IH. done.
Qed.

Lemma for_each_cons {A} (f : A -> M unit) x l w :
  for_each f (x :: l) w = (f x ;;; for_each f l) w.
Proof. done. Qed.

(** *** Components of the world a computation leaves alone *)

Definition preserves {X A} (proj : world -> X) (m : M A) : Prop :=
  forall w, proj (m w).2 = proj w.

Section Preserves.
Context {X : Type} (proj : world -> X).

Lemma preserves_ret {A} (a : A) : preserves proj (ret a).
Proof. done. Qed.

Lemma preserves_raise {A} e : preserves proj (@raise A e).
Proof. done. Qed.

Lemma preserves_bind {A B} (m : M A) (k : A -> M B) :
  preserves proj m -> (forall a, preserves proj (k a)) -> preserves proj (bind m k).
Proof.
  intros Hm Hk w. unfold bind. specialize (Hm w).
  destruct (m w) as [[e|a] w1]; [done|]. cbn in Hm. by rewrite Hk.
Qed.

Lemma preserves_for_each {A} (f : A -> M unit) l :
  (forall x, preserves proj (f x)) -> preserves proj (for_each f l).
Proof.
  intros Hf. induction l; [done|]. by apply preserves_bind.
Qed.

Lemma preserves_map_m {A B} (f : A -> M B) l :
  (forall x, preserves proj (f x)) -> preserves proj (map_m f l).
Proof.
  intros Hf. induction l as [|x l IH]; [done|].
  apply preserves_bind; [done|]. intros y.
  apply preserves_bind; [done|]. intros ys. done.
Qed.

Lemma preserves_eq {A} (m : M A) w r w' :
  preserves proj m -> m w = (r, w') -> proj w' = proj w.
Proof. intros Hm E. specialize (Hm w). by rewrite E in Hm. Qed.
End Preserves.

Lemma deref_preserves {X} (proj : world -> X) p : preserves proj (deref p).
Proof. intros w. unfold deref. by destruct (tensors w !! p). Qed.

Lemma deref_ok p w t : tensors w !! p = Some t -> deref p w = (inr t, w).
Proof. intros H. unfold deref. by rewrite H. Qed.

Lemma deref_ok_inv p w t w' :
  deref p w = (inr t, w') -> w' = w /\ tensors w !! p = Some t.
Proof. unfold deref. destruct (tensors w !! p); naive_solver. Qed.

Create HintDb pres.
#[global] Hint Resolve preserves_ret preserves_raise deref_preserves : pres.

(** Tensor operations that never touch the log or the dictionaries. *)
Lemma store_log p t : preserves log (store p t).
Proof. done. Qed.
Lemma store_dicts p t : preserves dicts (store p t).
Proof. done. Qed.
Lemma emit_dicts ev : preserves dicts (emit ev).
Proof. done. Qed.
Lemma emit_tensors ev : preserves tensors (emit ev).
Proof. done. Qed.

#[global] Hint Resolve store_log store_dicts emit_dicts emit_tensors : pres.

Ltac pres :=
  repeat first
    [ progress eauto with pres
    | apply preserves_bind; [|intros ?]
    | apply preserves_for_each; intros ?
    | apply preserves_map_m; intros ?
    | match goal with
      | |- preserves _ (match ?x with _ => _ end) => destruct x
      | |- preserves _ (let '(_, _) := ?x in _) => destruct x
      end ].

Lemma zero_grad_param_log p : preserves log (zero_grad_param p).
Proof. unfold zero_grad_param. pres. Qed.

Lemma accumulate_grad_log p g : preserves log (accumulate_grad p g).
Proof. unfold accumulate_grad. pres. Qed.

(** *** The part of the tensor store a computation may write *)

Definition touches_only {A} (D : nat -> Prop) (m : M A) : Prop :=
  forall w p, ~ D p -> tensors (m w).2 !! p = tensors w !! p.

Lemma touches_preserves {A} D (m : M A) : preserves tensors m -> touches_only D m.
Proof. intros H w p _. by rewrite H. Qed.

Lemma touches_bind {A B} D (m : M A) (k : A -> M B) :
  touches_only D m -> (forall a, touches_only D (k a)) -> touches_only D (bind m k).
Proof.
  intros Hm Hk w p Hp. unfold bind. specialize (Hm w p Hp).
  destruct (m w) as [[e|a] w1]; [done|]. cbn in Hm. by rewrite Hk.
Qed.

Lemma touches_store D p t : D p -> touches_only D (store p t).
Proof.
  intros HD w p' Hp'. cbn. apply list_lookup_insert_ne. by intros ->.
Qed.

Lemma touches_weaken {A} (D D' : nat -> Prop) (m : M A) :
  (forall p, D p -> D' p) -> touches_only D m -> touches_only D' m.
Proof. intros HDD Hm w p Hp. apply Hm. naive_solver. Qed.

Lemma touches_for_each {A} D (f : A -> M unit) l :
  (forall x, x ∈ l -> touches_only D (f x)) -> touches_only D (for_each f l).
Proof.
  induction l as [|x l IH]; intros Hf; [done|].
  apply touches_bind; [apply Hf; left|intros _]. apply IH.
  intros y Hy. apply Hf. by right.
Qed.

Lemma touches_eq {A} D (m : M A) w r w' p :
  touches_only D m -> m w = (r, w') -> ~ D p -> tensors w' !! p = tensors w !! p.
Proof. intros Hm E Hp. specialize (Hm w p Hp). by rewrite E in Hm. Qed.

Lemma touches_ret {A} D (a : A) : touches_only D (ret a).
Proof. done. Qed.
Lemma touches_raise {A} D e : touches_only D (@raise A e).
Proof. done. Qed.
Lemma touches_deref D p : touches_only D (deref p).
Proof. apply touches_preserves, deref_preserves. Qed.
Lemma touches_emit D ev : touches_only D (emit ev).
Proof. done. Qed.

Create HintDb touch.
#[global] Hint Resolve touches_ret touches_raise touches_deref touches_emit : touch.

Ltac touch :=
  repeat first
    [ progress eauto with touch
    | apply touches_bind; [|intros ?]
    | apply touches_store; try done
    | match goal with
      | |- touches_only _ (match ?x with _ => _ end) => destruct x
      end ].


(** ** The hooks *)

Section Proofs.
Context {F : Framework}.
Variable cast : value -> dtype -> dtype -> value.

(** *** [set_grad] and [copy_in_params] *)

Lemma set_grad_unfold fp16_net fp32_weight :
  set_grad fp16_net fp32_weight = for_each set_grad_body (zip fp32_weight (dp_parameters fp16_net)).
Proof. done. Qed.

Lemma new_grad_ok p w t :
  tensors w !! p = Some t ->
  new_grad p w =
  (inr tt, World (<[p := TensorObj (data t)
                          (Some (TData (t_dtype (data t)) (t_size (data t))
                                       (uninitialized (t_size (data t)))))
                          (requires_grad t)]> (tensors w))
                 (dicts w) (log w ++ [EvNew p (t_size (data t))])).
Proof.
  intros H. unfold new_grad. rewrite (bind_ok _ _ _ _ _ (deref_ok _ _ _ H)). done.
Qed.

Lemma grad_copy_ok dst src w td ts gd gs :
  tensors w !! dst = Some td -> tensors w !! src = Some ts ->
  grad td = Some gd -> grad ts = Some gs -> t_size gd = t_size gs ->
  grad_copy_ dst src w =
  (inr tt, World (<[dst := TensorObj (data td) (Some (with_vals gd (t_vals gs))) (requires_grad td)]> (tensors w))
                 (dicts w) (log w ++ [EvCopyGrad dst src])).
Proof.
  intros Hd Hs Hgd Hgs Hsz. unfold grad_copy_.
  rewrite (bind_ok _ _ _ _ _ (deref_ok _ _ _ Hd)).
  rewrite (bind_ok _ _ _ _ _ (deref_ok _ _ _ Hs)).
  rewrite Hgd, Hgs. unfold tdata_copy_. rewrite decide_True by done. done.
Qed.


Lemma copy_in_params_unfold fp16_net fp32_weight :
  copy_in_params fp16_net fp32_weight
  = for_each copy_in_body (zip (dp_parameters fp16_net) fp32_weight).
Proof. done. Qed.

Lemma zip_take_min {A B} (l : list A) (k : list B) :
  zip l k = zip (take (length l `min` length k) l) (take (length l `min` length k) k).
Proof.
  revert k. induction l as [|x l IH]; intros [|y k]; cbn; try done.
  f_equal. apply IH.
Qed.

Lemma sizes_lookup h p : sizes h !! p = (fun t => t_size (data t)) <$> h !! p.
Proof. unfold sizes. apply list_lookup_fmap. Qed.

Lemma sizes_insert h p t t' :
  h !! p = Some t -> t_size (data t') = t_size (data t) -> sizes (<[p := t']> h) = sizes h.
Proof.
  intros Hp Hsz. unfold sizes.
  rewrite list_fmap_insert. apply list_insert_id.
  rewrite list_lookup_fmap, Hp. cbn. by rewrite Hsz.
Qed.

Lemma same_size_inv h a b :
  same_size (sizes h) (a, b) = true ->
  exists ta tb, h !! a = Some ta /\ h !! b = Some tb /\ t_size (data ta) = t_size (data tb).
Proof.
  unfold same_size. cbn. rewrite !sizes_lookup.
  destruct (h !! a) as [ta|]; simpl; [|done].
  destruct (h !! b) as [tb|]; simpl; [|done].
  intros H%bool_decide_eq_true. eauto.
Qed.

Lemma data_copy_ok dst src w td ts :
  tensors w !! dst = Some td -> tensors w !! src = Some ts ->
  t_size (data td) = t_size (data ts) ->
  data_copy_ dst src w =
  (inr tt, World (<[dst := TensorObj (with_vals (data td) (t_vals (data ts))) (grad td)
                                     (requires_grad td)]> (tensors w))
                 (dicts w) (log w ++ [EvCopyData dst src])).
Proof.
  intros Hd Hs Hsz. unfold data_copy_.
  rewrite (bind_ok _ _ _ _ _ (deref_ok _ _ _ Hd)).
  rewrite (bind_ok _ _ _ _ _ (deref_ok _ _ _ Hs)).
  unfold tdata_copy_. cbn. rewrite decide_True by done. done.
Qed.

Lemma copy_loop_ok l w :
  forallb (same_size (sizes (tensors w))) l = true ->
  exists w', for_each copy_in_body l w = (inr tt, w')
    /\ log w' = log w ++ map (uncurry EvCopyData) l
    /\ dicts w' = dicts w
    /\ sizes (tensors w') = sizes (tensors w)
    /\ forall p, p ∉ l.*1 -> tensors w' !! p = tensors w !! p.
Proof.
  revert w. induction l as [|[a b] l IH]; intros w Hall.
  - exists w. cbn. rewrite app_nil_r. done.
  - cbn in Hall. apply andb_prop in Hall as [Hab Hl].
    destruct (same_size_inv _ _ _ Hab) as (ta & tb & Ha & Hb & Hsz).
    pose proof (data_copy_ok a b w ta tb Ha Hb Hsz) as Hstep.
    set (w1 := World _ _ _) in Hstep.
    assert (Hsz1 : sizes (tensors w1) = sizes (tensors w)).
    { unfold w1; cbn. by eapply sizes_insert. }
    destruct (IH w1) as (w' & Hrun & Hlog & Hd & Hs & Hframe).
    { by rewrite Hsz1. }
    exists w'. split; [|split; [|split; [|split]]].
    + rewrite for_each_cons. unfold copy_in_body at 1.
      by rewrite (bind_ok _ _ _ _ _ Hstep).
    + rewrite Hlog. unfold w1; cbn. by rewrite <- app_assoc.
    + by rewrite Hd.
    + by rewrite Hs.
    + intros p Hp. cbn in Hp. apply not_elem_of_cons in Hp as [Hpa Hpl].
      rewrite Hframe by done. unfold w1; cbn.
      by rewrite list_lookup_insert_ne.
Qed.

Lemma forallb_Forall {A} (f : A -> bool) l :
  forallb f l = true <-> Forall (fun x => f x = true) l.
Proof.
  induction l as [|x l IH]; cbn.
  - split; [constructor|done].
  - rewrite andb_true_iff, IH, Forall_cons. done.
Qed.

(** What one iteration of [set_grad] does when it goes through. *)
Lemma set_grad_pair_inv a b w w' :
  set_grad_pair a b w = (inr tt, w') ->
  exists tb, tensors w !! b = Some tb /\
    ((grad tb = None /\ w' = w) \/
     exists g ta gd,
       grad tb = Some g /\ tensors w !! a = Some ta /\
       gd = from_option id (TData (t_dtype (data ta)) (t_size (data ta))
                                  (uninitialized (t_size (data ta)))) (grad ta) /\
       t_size gd = t_size g /\
       w' = World (<[a := TensorObj (data ta) (Some (with_vals gd (t_vals g)))
                                     (requires_grad ta)]> (tensors w))
                  (dicts w)
                  (log w ++ match grad ta with
                            | Some _ => []
                            | None => [EvNew a (t_size (data ta))]
                            end
                         ++ [EvCopyGrad a b])).
Proof.
  unfold set_grad_pair. intros H.
  apply bind_ok_inv in H as (tb & w1 & [-> Hb]%deref_ok_inv & H).
  exists tb. split; [done|].
  destruct (grad tb) as [g|] eqn:Hg; [right|left; by inversion H].
  apply bind_ok_inv in H as (ta & w1 & [-> Ha]%deref_ok_inv & H).
  exists g, ta. eexists. split; [done|]. split; [done|]. split; [done|].
  destruct (grad ta) as [g32|] eqn:Hg32; cbn.
  - apply bind_ok_inv in H as ([] & w1 & [= <-] & H).
    unfold grad_copy_ in H.
    rewrite (bind_ok _ _ _ _ _ (deref_ok _ _ _ Ha)) in H.
    rewrite (bind_ok _ _ _ _ _ (deref_ok _ _ _ Hb)) in H.
    rewrite Hg32, Hg in H. unfold tdata_copy_ in H.
    destruct (decide (t_size g32 = t_size g)) as [Hsz|]; [|by inversion H].
    by inversion H.
  - rewrite (bind_ok _ _ _ _ _ (new_grad_ok _ _ _ Ha)) in H.
    assert (Hne : a <> b) by (intros ->; congruence).
    assert (Hlt : a < length (tensors w)) by by eapply lookup_lt_Some.
    unfold grad_copy_ in H.
    erewrite (bind_ok (deref a)) in H by (apply deref_ok; cbn; by apply list_lookup_insert_eq).
    erewrite (bind_ok (deref b)) in H
      by (apply deref_ok; cbn; by rewrite list_lookup_insert_ne).
    cbn [grad] in H. rewrite Hg in H. unfold tdata_copy_ in H. cbn [t_size] in H.
    destruct (decide (t_size (data ta) = t_size g)) as [Hsz|]; [|by inversion H].
    split; [done|]. unfold bind, emit, store, add_log, set_tensors in H. cbn in H.
    inversion H. rewrite list_insert_insert_eq.
    by rewrite <- app_assoc.
Qed.

(** ... and when it does go through. *)
Lemma set_grad_pair_ok a b w ta tb :
  tensors w !! a = Some ta -> tensors w !! b = Some tb ->
  t_size (data ta) = t_size (data tb) ->
  grad_sized ta = true -> grad_sized tb = true ->
  exists w', set_grad_pair a b w = (inr tt, w').
Proof.
  intros Ha Hb Hsz Hga Hgb. unfold set_grad_pair.
  rewrite (bind_ok _ _ _ _ _ (deref_ok _ _ _ Hb)).
  unfold grad_sized in Hga, Hgb.
  destruct (grad tb) as [g|] eqn:Hg; [|by eexists].
  apply bool_decide_eq_true in Hgb.
  rewrite (bind_ok _ _ _ _ _ (deref_ok _ _ _ Ha)).
  destruct (grad ta) as [g32|] eqn:Hg32.
  - apply bool_decide_eq_true in Hga.
    rewrite (bind_ok _ (fun _ => grad_copy_ a b) w tt w) by done.
    erewrite grad_copy_ok by (done || congruence). by eexists.
  - rewrite (bind_ok _ _ _ _ _ (new_grad_ok _ _ _ Ha)).
    assert (Hne : a <> b) by (intros ->; congruence).
    assert (Hlt : a < length (tensors w)) by by eapply lookup_lt_Some.
    erewrite grad_copy_ok; [by eexists|..].
    + cbn. by apply list_lookup_insert_eq.
    + cbn. by rewrite list_lookup_insert_ne.
    + done.
    + done.
    + cbn. congruence.
Qed.

Lemma set_grad_loop_ok l w :
  forallb (same_size (sizes (tensors w))) l = true ->
  forallb grad_sized (tensors w) = true ->
  exists w', for_each set_grad_body l w = (inr tt, w').
Proof.
  revert w. induction l as [|[a b] l IH]; intros w Hall Hgs; [by eexists|].
  cbn in Hall. apply andb_prop in Hall as [Hab Hl].
  destruct (same_size_inv _ _ _ Hab) as (ta & tb & Ha & Hb & Hsz).
  pose proof Hgs as HgsF. rewrite forallb_Forall, Forall_lookup in HgsF.
  destruct (set_grad_pair_ok a b w ta tb) as (w1 & Hstep); eauto.
  rewrite for_each_cons. unfold set_grad_body at 1.
  rewrite (bind_ok _ _ _ _ _ Hstep).
  apply set_grad_pair_inv in Hstep as (tb' & Hb' & [[_ ->]|Hstep]); [by apply IH|].
  destruct Hstep as (g & ta' & gd & Hg & Ha' & -> & Hgd & ->).
  simplify_eq. apply IH; cbn.
  - erewrite sizes_insert; done.
  - apply forallb_Forall, Forall_insert; [by apply forallb_Forall|].
    unfold grad_sized. cbn. apply bool_decide_eq_true.
    rewrite Hgd. apply HgsF in Hb. unfold grad_sized in Hb. rewrite Hg in Hb.
    apply bool_decide_eq_true in Hb. congruence.
Qed.

Lemma new_grad_touches p : touches_only (eq p) (new_grad p).
Proof. unfold new_grad. touch. Qed.

Lemma grad_copy_touches dst src : touches_only (eq dst) (grad_copy_ dst src).
Proof. unfold grad_copy_. touch. Qed.

Lemma set_grad_pair_touches a b : touches_only (eq a) (set_grad_pair a b).
Proof.
  unfold set_grad_pair. touch; auto using new_grad_touches, grad_copy_touches.
Qed.

Lemma pairs_touch_firsts (f : nat * nat -> M unit) l :
  (forall a b, touches_only (eq a) (f (a, b))) ->
  touches_only (fun p => p ∈ l.*1) (for_each f l).
Proof.
  intros Hf. apply touches_for_each. intros [a b] Hab.
  eapply touches_weaken; [|apply Hf]. intros p <-.
  apply list_elem_of_fmap. by exists (a, b).
Qed.

Lemma same_size_swap sz l k :
  forallb (same_size sz) (zip l k) = forallb (same_size sz) (zip k l).
Proof.
  revert k. induction l as [|a l IH]; intros [|b k]; cbn; try done.
  rewrite IH. f_equal. unfold same_size. cbn.
  destruct (sz !! a), (sz !! b); try done.
  apply bool_decide_ext. naive_solver.
Qed.


(** *** The log of [after_train_iter] *)

Lemma emit_then_silent {A} ev (m : M A) w :
  preserves log m -> log ((emit ev ;;; m) w).2 = log w ++ [ev].
Proof. intros Hm. unfold bind, emit. by rewrite Hm. Qed.

Lemma emit_then_silent_eq {A} ev (m : M A) w r w' :
  preserves log m -> (emit ev ;;; m) w = (r, w') -> log w' = log w ++ [ev].
Proof. intros Hm E. pose proof (emit_then_silent ev m w Hm) as H. by rewrite E in H. Qed.

Lemma from_impl_log r : preserves log (from_impl r).
Proof. intros w. unfold from_impl. by destruct r. Qed.

Lemma module_zero_grad_log net w r w' :
  module_zero_grad net w = (r, w') -> log w' = log w ++ [EvModelZeroGrad].
Proof.
  apply emit_then_silent_eq. apply preserves_for_each. intros p. apply zero_grad_param_log.
Qed.

Lemma optimizer_zero_grad_log o w r w' :
  optimizer_zero_grad o w = (r, w') -> log w' = log w ++ [EvOptimizerZeroGrad].
Proof.
  apply emit_then_silent_eq. apply preserves_for_each. intros g.
  apply preserves_for_each. intros p. apply zero_grad_param_log.
Qed.

Lemma loss_mul_eq l s w :
  loss_mul l s w
  = (inr (Loss (loss_value l * s)%Qc
               (map (fun '(p, g) => (p, map (fun x => (x * s)%Qc) g)) <$> loss_grad_fn l)),
     add_log (EvMul s) w).
Proof. done. Qed.

Lemma backward_log l w r w' : backward l w = (r, w') -> log w' = log w ++ [EvBackward].
Proof.
  apply emit_then_silent_eq. destruct (loss_grad_fn l); [|apply preserves_raise].
  apply preserves_for_each. intros [p g]. apply accumulate_grad_log.
Qed.

Lemma allreduce_grads_log ps c b w r w' :
  allreduce_grads ps c b w = (r, w') -> log w' = log w ++ [EvAllreduce ps c b].
Proof.
  apply emit_then_silent_eq. intros w0. apply from_impl_log.
Qed.

Lemma clip_grads_log cfg ps w r w' :
  clip_grads cfg ps w = (r, w') -> log w' = log w ++ [EvClip ps].
Proof. apply emit_then_silent_eq. intros w0. apply from_impl_log. Qed.

Lemma optimizer_step_log o w r w' :
  optimizer_step o w = (r, w') -> log w' = log w ++ [EvStep].
Proof. apply emit_then_silent_eq. intros w0. apply from_impl_log. Qed.

Lemma set_grad_loop_log l w w' :
  for_each set_grad_body l w = (inr tt, w') ->
  exists evs, log w' = log w ++ evs /\ Forall (grad_copy_event l) evs.
Proof.
  revert w. induction l as [|[a b] l IH]; intros w H.
  - inversion H. exists []. by rewrite app_nil_r.
  - rewrite for_each_cons in H.
    apply bind_ok_inv in H as ([] & w1 & Hstep & H).
    apply IH in H as (evs & Hlog & Hevs).
    assert (Hweak : Forall (grad_copy_event ((a, b) :: l)) evs).
    { eapply Forall_impl; [done|]. intros [] Hev; cbn in *; try done; by right. }
    apply set_grad_pair_inv in Hstep as (tb & Hb & [[_ ->]|Hstep]); [by exists evs|].
    destruct Hstep as (g & ta & gd & Hg & Ha & -> & Hgd & ->). cbn in Hlog.
    eexists. split; [by rewrite Hlog, <- !app_assoc|].
    apply Forall_app. split.
    + destruct (grad ta); [constructor|]. apply Forall_singleton. cbn. by left.
    + apply Forall_cons. split; [cbn; by left|done].
Qed.

Lemma copy_loop_log l w w' :
  for_each copy_in_body l w = (inr tt, w') ->
  log w' = log w ++ map (uncurry EvCopyData) l.
Proof.
  revert w. induction l as [|[a b] l IH]; intros w H.
  - inversion H. by rewrite app_nil_r.
  - rewrite for_each_cons in H.
    apply bind_ok_inv in H as ([] & w1 & Hstep & H).
    apply IH in H. rewrite H. cbn.
    unfold copy_in_body, data_copy_ in Hstep.
    apply bind_ok_inv in Hstep as (ta & ? & [-> Ha]%deref_ok_inv & Hstep).
    apply bind_ok_inv in Hstep as (tb & ? & [-> Hb]%deref_ok_inv & Hstep).
    apply bind_ok_inv in Hstep as ([] & ? & [= <-] & Hstep).
    destruct (tdata_copy_ (data ta) (data tb)); [done|].
    inversion Hstep. cbn. by rewrite <- app_assoc.
Qed.

Lemma has_grad_insert h p t t' q :
  h !! p = Some t -> is_Some (grad t') <-> is_Some (grad t) ->
  has_grad (<[p := t']> h) q = has_grad h q.
Proof.
  intros Hp Ht. unfold has_grad.
  destruct (decide (p = q)) as [->|Hne].
  - rewrite list_lookup_insert_eq by by eapply lookup_lt_Some.
    rewrite Hp. by apply bool_decide_ext.
  - by rewrite list_lookup_insert_ne.
Qed.

Lemma unscale_param_inv s p w w' :
  unscale_param s p w = (inr tt, w') ->
  log w' = log w ++ (if has_grad (tensors w) p then [EvDiv p s] else [])
  /\ forall q, has_grad (tensors w') q = has_grad (tensors w) q.
Proof.
  unfold unscale_param. intros H.
  apply bind_ok_inv in H as (t & ? & [-> Hp]%deref_ok_inv & H).
  unfold has_grad at 1. rewrite Hp.
  destruct (grad t) as [g|] eqn:Hg.
  - unfold grad_div_ in H. rewrite (bind_ok _ _ _ _ _ (deref_ok _ _ _ Hp)), Hg in H.
    inversion H. cbn. split; [done|].
    intros q. eapply has_grad_insert; [done|]. cbn. rewrite Hg. done.
  - inversion H. subst. cbn. by rewrite app_nil_r.
Qed.

Lemma unscale_loop_log s ps w w' :
  for_each (unscale_param s) ps w = (inr tt, w') ->
  log w' = log w ++ map (fun p => EvDiv p s) (List.filter (has_grad (tensors w)) ps).
Proof.
  revert w. induction ps as [|p ps IH]; intros w H.
  - inversion H. by rewrite app_nil_r.
  - rewrite for_each_cons in H.
    apply bind_ok_inv in H as ([] & w1 & Hstep & H).
    apply unscale_param_inv in Hstep as [Hlog Hmask].
    apply IH in H. rewrite H, Hlog. cbn.
    rewrite (filter_ext (has_grad (tensors w1)) (has_grad (tensors w))) by done.
    destruct (has_grad (tensors w) p); cbn; by rewrite <- app_assoc.
Qed.

Lemma filter_allreduce_grads pairs evs :
  Forall (grad_copy_event pairs) evs -> List.filter is_allreduce evs = [].
Proof.
  induction 1 as [|ev evs Hev _ IH]; [done|].
  cbn. rewrite IH. by destruct ev.
Qed.

Lemma filter_allreduce_map {A} (f : A -> event) l :
  (forall x, is_allreduce (f x) = false) -> List.filter is_allreduce (map f l) = [].
Proof.
  intros Hf. induction l as [|x l IH]; [done|]. cbn. by rewrite Hf.
Qed.


(** *** Exceptions *)

Lemma bind_assoc {A B C} (m : M A) (k : A -> M B) (k' : B -> M C) w :
  bind (bind m k) k' w = bind m (fun a => bind (k a) k') w.
Proof. unfold bind. by destruct (m w) as [[e|a] w1]. Qed.

Lemma for_each_first_failure {A} (f : A -> M unit) l pre x post w w1 e w2 :
  l = pre ++ x :: post ->
  for_each f pre w = (inr tt, w1) -> f x w1 = (inl e, w2) ->
  for_each f l w = (inl e, w2).
Proof.
  intros -> Hpre Hx. rewrite for_each_app, (bind_ok _ _ _ _ _ Hpre).
  rewrite for_each_cons. by rewrite (bind_err _ _ _ _ _ Hx).
Qed.

Lemma for_each_err_inv {A} (f : A -> M unit) l w e w2 :
  for_each f l w = (inl e, w2) ->
  exists pre x post w1,
    l = pre ++ x :: post /\ for_each f pre w = (inr tt, w1) /\ f x w1 = (inl e, w2).
Proof.
  revert w. induction l as [|x l IH]; intros w H; [done|].
  rewrite for_each_cons in H. apply bind_err_inv in H as [H|([] & w1 & Hx & H)].
  - by exists [], x, l, w.
  - apply IH in H as (pre & y & post & w1' & -> & Hpre & Hy).
    exists (x :: pre), y, post, w1'. split; [done|]. split; [|done].
    rewrite for_each_cons. by rewrite (bind_ok _ _ _ _ _ Hx).
Qed.

Ltac destruct_runs :=
  repeat (match goal with
          | |- context [match ?x with pair _ _ => _ end] =>
              lazymatch x with
              | context [match _ with _ => _ end] => fail
              | _ => destruct x as [[?|?] ?]
              end
          end; try done).

Lemma after_train_iter_steps self runner fp32_weight rest w :
  param_groups (r_optimizer runner) = fp32_weight :: rest ->
  after_train_iter self runner w = for_each id (iter_steps self runner fp32_weight) w.
Proof.
  intros Hg. unfold after_train_iter, iter_steps. rewrite Hg.
  cbn [for_each id].
  destruct (r_outputs runner !! "loss"), (distributed self), (grad_clip self);
    unfold bind, ret, raise; destruct_runs;
    repeat match goal with u : unit |- _ => destruct u end; done.
Qed.

(** *** [wrap_fp16_model] and [patch_norm_fp32] *)

Lemma nn_module_ind' (P : nn_module -> Prop) :
  (forall kind ps flag fwd children,
     Forall P children -> P (NNModule kind ps flag fwd children)) ->
  forall m, P m.
Proof.
  intros Hnode. fix IH 1. intros [kind ps flag fwd children].
  apply Hnode. induction children as [|c cs IHcs]; constructor; [apply IH|apply IHcs].
Qed.

Lemma in_store_spec h ps : in_store h ps = true <-> Forall (fun p => p < length h) ps.
Proof.
  unfold in_store. rewrite forallb_Forall. apply Forall_iff. intros p.
  apply Nat.ltb_lt.
Qed.

Lemma in_store_app h l1 l2 :
  in_store h (l1 ++ l2) = true <-> in_store h l1 = true /\ in_store h l2 = true.
Proof. unfold in_store. rewrite forallb_app. apply andb_true_iff. Qed.

Lemma in_store_length h h' ps : length h' = length h -> in_store h' ps = in_store h ps.
Proof. intros Hl. unfold in_store. by rewrite Hl. Qed.

Lemma length_cast_at ty h p : length (cast_at ty h p) = length h.
Proof. unfold cast_at. destruct (h !! p); [apply length_insert|done]. Qed.

Lemma length_cast_all ty ps h : length (cast_all ty ps h) = length h.
Proof.
  revert h. induction ps as [|p ps IH]; intros h; [done|].
  cbn. unfold cast_all in IH. by rewrite IH, length_cast_at.
Qed.

Lemma cast_all_app ty l1 l2 h : cast_all ty (l1 ++ l2) h = cast_all ty l2 (cast_all ty l1 h).
Proof. apply foldl_app. Qed.

Lemma tensor_cast_idemp ty t : tensor_cast ty (tensor_cast ty t) = tensor_cast ty t.
Proof. destruct t as [d [g|] rg]; done. Qed.

Lemma lookup_cast_at ty h p q :
  cast_at ty h p !! q = if decide (p = q) then tensor_cast ty <$> h !! q else h !! q.
Proof.
  unfold cast_at. destruct (decide (p = q)) as [->|Hne].
  - destruct (h !! q) as [t|] eqn:Hq; [|by rewrite Hq].
    by rewrite list_lookup_insert_eq by by eapply lookup_lt_Some.
  - destruct (h !! p); [|done]. by rewrite list_lookup_insert_ne.
Qed.

Lemma lookup_cast_all ty ps h q :
  cast_all ty ps h !! q = if decide (q ∈ ps) then tensor_cast ty <$> h !! q else h !! q.
Proof.
  revert h. induction ps as [|p ps IH]; intros h; [done|].
  cbn. unfold cast_all in IH. rewrite IH, lookup_cast_at.
  destruct (decide (p = q)) as [->|Hne].
  - rewrite (decide_True (P := q ∈ q :: ps)) by left.
    destruct (decide (q ∈ ps)); [|done].
    destruct (h !! q); cbn; [|done]. by rewrite tensor_cast_idemp.
  - destruct (decide (q ∈ ps)).
    + by rewrite decide_True by by right.
    + rewrite decide_False; [done|]. intros [->|?]%elem_of_cons; done.
Qed.

Lemma param_cast_eq ty p w :
  p < length (tensors w) ->
  param_cast ty p w = (inr tt, set_tensors (cast_at ty (tensors w) p) w).
Proof.
  intros Hp. apply lookup_lt_is_Some in Hp as [t Ht].
  unfold param_cast. rewrite (bind_ok _ _ _ _ _ (deref_ok _ _ _ Ht)).
  unfold cast_at. by rewrite Ht.
Qed.

Lemma cast_loop_eq ty ps w :
  in_store (tensors w) ps = true ->
  for_each (param_cast ty) ps w = (inr tt, set_tensors (cast_all ty ps (tensors w)) w).
Proof.
  revert w. induction ps as [|p ps IH]; intros w Hps.
  - by destruct w.
  - cbn in Hps. apply andb_prop in Hps as [Hp%Nat.ltb_lt Hps].
    rewrite for_each_cons, (bind_ok _ _ _ _ _ (param_cast_eq ty p w Hp)).
    rewrite IH; [done|]. cbn. by rewrite (in_store_length (tensors w)) by apply length_cast_at.
Qed.

Lemma module_half_eq m w :
  in_store (tensors w) (all_params m) = true ->
  module_half m w
  = (inr tt, World (cast_all Half (all_params m) (tensors w)) (dicts w)
                   (log w ++ [EvHalf (all_params m)])).
Proof.
  intros Hm. unfold module_half, bind, emit. by rewrite cast_loop_eq.
Qed.

Lemma module_float_eq m w :
  in_store (tensors w) (all_params m) = true ->
  module_float m w
  = (inr tt, World (cast_all Float (all_params m) (tensors w)) (dicts w)
                   (log w ++ [EvFloat (all_params m)])).
Proof.
  intros Hm. unfold module_float, bind, emit. by rewrite cast_loop_eq.
Qed.

Lemma patch_children_eq children :
  Forall (fun m => forall w,
            in_store (tensors w) (all_params m) = true ->
            patch_norm_fp32 cast m w
            = (inr (patched cast m),
               World (cast_all Float (norm_params m) (tensors w)) (dicts w)
                     (log w ++ float_events m))) children ->
  forall w,
    in_store (tensors w) (flat_map all_params children) = true ->
    map_m (patch_norm_fp32 cast) children w
    = (inr (map (patched cast) children),
       World (cast_all Float (flat_map norm_params children) (tensors w)) (dicts w)
             (log w ++ flat_map float_events children)).
Proof.
  induction 1 as [|c cs Hc _ IH]; intros w Hw.
  - cbn. rewrite app_nil_r. by destruct w.
  - cbn in Hw. apply in_store_app in Hw as [Hwc Hwcs].
    cbn [map_m]. fold (map_m (patch_norm_fp32 cast) cs).
    rewrite (bind_ok _ _ _ _ _ (Hc w Hwc)).
    assert (Hcs : in_store (cast_all Float (norm_params c) (tensors w))
                           (flat_map all_params cs) = true).
    { by rewrite (in_store_length (tensors w)) by apply length_cast_all. }
    pose proof (IH (World (cast_all Float (norm_params c) (tensors w)) (dicts w)
                          (log w ++ float_events c)) Hcs) as Hrun.
    rewrite (bind_ok _ _ _ _ _ Hrun).
    cbn [tensors dicts log flat_map map]. by rewrite cast_all_app, <- app_assoc.
Qed.

Lemma patch_norm_fp32_eq m w :
  in_store (tensors w) (all_params m) = true ->
  patch_norm_fp32 cast m w
  = (inr (patched cast m),
     World (cast_all Float (norm_params m) (tensors w)) (dicts w) (log w ++ float_events m)).
Proof.
  revert w. induction m as [kind ps flag fwd children IH] using nn_module_ind'.
  intros w Hw. pose proof (patch_children_eq children IH) as Hchildren.
  assert (Hcs : in_store (tensors w) (flat_map all_params children) = true).
  { cbn in Hw. by apply in_store_app in Hw as [_ ?]. }
  cbn [patch_norm_fp32 patched norm_params float_events m_kind m_children].
  fold (map_m (patch_norm_fp32 cast) children).
  destruct (is_norm kind).
  - rewrite bind_assoc, (bind_ok _ _ _ _ _ (module_float_eq _ w Hw)).
    unfold bind at 1. cbn [ret].
    assert (Hcs' : in_store (cast_all Float (all_params (NNModule kind ps flag fwd children))
                                      (tensors w))
                            (flat_map all_params children) = true).
    { by rewrite (in_store_length (tensors w)) by apply length_cast_all. }
    pose proof (Hchildren (World (cast_all Float (all_params (NNModule kind ps flag fwd children))
                                           (tensors w))
                                 (dicts w)
                                 (log w ++ [EvFloat (all_params (NNModule kind ps flag fwd children))]))
                          Hcs') as Hrun.
    rewrite (bind_ok _ _ _ _ _ Hrun).
    cbn [tensors dicts log flat_map map]. by rewrite cast_all_app, <- app_assoc.
  - unfold bind at 1. cbn [ret].
    rewrite (bind_ok _ _ _ _ _ (Hchildren _ Hcs)). done.
Qed.

Lemma Forall2_flat_map {A B} (P : A -> B -> Prop) (f : A -> list A) (g : B -> list B) l k :
  Forall2 (fun x y => Forall2 P (f x) (g y)) l k ->
  Forall2 P (flat_map f l) (flat_map g k).
Proof. induction 1; cbn; [constructor|by apply Forall2_app]. Qed.

Lemma modules_patched m : Forall2 (patched_from cast) (modules m) (modules (patched cast m)).
Proof.
  induction m as [kind ps flag fwd children IH] using nn_module_ind'.
  cbn [modules patched m_children]. constructor.
  - unfold patched_from. cbn. by rewrite length_map.
  - apply Forall2_flat_map. apply Forall2_fmap_r.
    by apply Forall_Forall2_diag.
Qed.

Lemma float_events_modules m :
  float_events m
  = map (fun n => EvFloat (all_params n))
        (List.filter (fun n => is_norm (m_kind n)) (modules m)).
Proof.
  induction m as [kind ps flag fwd children IH] using nn_module_ind'.
  cbn [float_events modules m_kind m_children List.filter].
  assert (Hcs : flat_map float_events children
                = map (fun n => EvFloat (all_params n))
                      (List.filter (fun n => is_norm (m_kind n)) (flat_map modules children))).
  { induction IH as [|c cs Hc _ IHcs]; [done|].
    cbn. by rewrite List.filter_app, map_app, Hc, IHcs. }
  rewrite Hcs. by destruct (is_norm kind).
Qed.

Lemma elem_of_norm_params m p :
  p ∈ norm_params m <->
  exists n, n ∈ modules m /\ is_norm (m_kind n) = true /\ p ∈ all_params n.
Proof.
  induction m as [kind ps flag fwd children IH] using nn_module_ind'.
  cbn [norm_params modules m_kind m_children].
  assert (Hcs : p ∈ flat_map norm_params children <->
                exists n, n ∈ flat_map modules children
                          /\ is_norm (m_kind n) = true /\ p ∈ all_params n).
  { induction IH as [|c cs Hc _ IHcs].
    - cbn. split; [by intros ?%elem_of_nil|by intros (? & ?%elem_of_nil & _)].
    - cbn. rewrite elem_of_app, Hc, IHcs. setoid_rewrite elem_of_app. split.
      + intros [(n & ? & ? & ?)|(n & ? & ? & ?)]; exists n; eauto.
      + intros (n & [?|?] & ? & ?); [left|right]; eauto. }
  rewrite elem_of_app, Hcs. setoid_rewrite elem_of_cons.
  destruct (is_norm kind) eqn:Hk.
  - split.
    + intros [Hp|(n & ? & ? & ?)]; [|by eauto 6].
      eexists. split; [by left|]. by split.
    + intros (n & [->|Hn] & Hn' & Hp); [by left|]. right. eauto.
  - split.
    + intros [?%elem_of_nil|(n & ? & ? & ?)]; [done|by eauto 6].
    + intros (n & [->|Hn] & Hn' & Hp); [cbn in Hn'; congruence|]. right. eauto.
Qed.

(** C4, amended. [patch_norm_fp32] visits every module of the tree, in
    the order of [modules()].  Every module keeps its kind, its parameter
    list, its [fp16_enabled] attribute and the number of its children; the
    forward of exactly the batch-norm and group-norm modules is replaced by
    the wrapper, which calls the original forward on the arguments cast
    from half to full precision and casts the result back; [float()] is
    called on exactly those modules.  In the store, the parameters under a
    normalization module (its own and those of the modules nested in it)
    are cast to full precision, and every other parameter is untouched. *)
Theorem patch_norm_fp32_spec m w :
  in_store (tensors w) (all_params m) = true ->
  exists m' w',
    patch_norm_fp32 cast m w = (inr m', w')
    /\ Forall2 (patched_from cast) (modules m) (modules m')
    /\ log w' = log w ++ map (fun n => EvFloat (all_params n))
                             (List.filter (fun n => is_norm (m_kind n)) (modules m))
    /\ (forall p,
          (exists n, n ∈ modules m /\ is_norm (m_kind n) = true /\ p ∈ all_params n) ->
          tensors w' !! p = tensor_cast Float <$> tensors w !! p)
    /\ (forall p,
          (forall n, n ∈ modules m -> is_norm (m_kind n) = true -> p ∉ all_params n) ->
          tensors w' !! p = tensors w !! p)
    /\ dicts w' = dicts w
    /\ (forall old_forward args kwargs w0,
          patch_forward_module cast old_forward Half Float true args kwargs w0
          = (output <- old_forward (cast args Half Float) (cast kwargs Half Float) ;;
             ret (cast output Float Half)) w0).
Proof.
  intros Hw. eexists _, _. split; [by apply patch_norm_fp32_eq|].
  split; [apply modules_patched|].
  split; [cbn; by rewrite float_events_modules|].
  split; [|split; [|split; [done|done]]].
  - intros p Hp. apply elem_of_norm_params in Hp. cbn.
    rewrite lookup_cast_all. by rewrite decide_True.
  - intros p Hp. cbn. rewrite lookup_cast_all. rewrite decide_False; [done|].
    intros (n & Hn & Hk & Hpn)%elem_of_norm_params. by eapply Hp.
Qed.

(** *** [before_run] *)

Lemma before_run_unfold self runner :
  before_run cast self runner
  = (param_copy <- map_m clone_data (parameters (module_of (r_model runner))) ;;
     for_each flag_body (zip param_copy (parameters (module_of (r_model runner)))) ;;;
     model' <- wrap_fp16_model cast (module_of (r_model runner)) ;;
     build_optimizer self runner param_copy model').
Proof. done. Qed.

Lemma lookup_in_store (h acc : list tensor) p :
  p < length h -> (h ++ acc) !! p = Some (h !!! p).
Proof.
  intros Hp. rewrite lookup_app_l by done.
  apply list_lookup_lookup_total_lt. done.
Qed.

Lemma in_store_cons h p ps :
  in_store h (p :: ps) = true <-> p < length h /\ in_store h ps = true.
Proof. unfold in_store. cbn [forallb]. by rewrite andb_true_iff, Nat.ltb_lt. Qed.

Lemma clone_loop_eq h ps : forall w acc,
  tensors w = h ++ acc -> in_store h ps = true ->
  map_m clone_data ps w
  = (inr (seq (length h + length acc) (length ps)),
     World (h ++ acc ++ raw_clones h ps) (dicts w)
           (log w ++ map (uncurry EvClone) (zip ps (seq (length h + length acc) (length ps))))).
Proof.
  induction ps as [|p ps IH]; intros w acc Hw Hps.
  - cbn. rewrite !app_nil_r, <- Hw. by destruct w.
  - apply in_store_cons in Hps as [Hp Hps].
    cbn [map_m]. fold (map_m clone_data ps).
    assert (Hstep : clone_data p w
              = (inr (length h + length acc),
                 World (h ++ (acc ++ [TensorObj (data (h !!! p)) None false])) (dicts w)
                       (log w ++ [EvClone p (length h + length acc)]))).
    { unfold clone_data.
      assert (Hlook : tensors w !! p = Some (h !!! p)).
      { rewrite Hw. by apply lookup_in_store. }
      rewrite (bind_ok _ _ _ _ _ (deref_ok p w (h !!! p) Hlook)).
      unfold bind, alloc, emit, ret, add_log, set_tensors. cbn.
      rewrite Hw, length_app, <- app_assoc. done. }
    rewrite (bind_ok _ _ _ _ _ Hstep).
    rewrite (bind_ok _ _ _ _ _
               (IH (World (h ++ (acc ++ [TensorObj (data (h !!! p)) None false])) (dicts w)
                          (log w ++ [EvClone p (length h + length acc)]))
                   (acc ++ [TensorObj (data (h !!! p)) None false]) eq_refl Hps)).
    unfold ret. cbn [tensors dicts log]. rewrite length_app. cbn [length].
    replace (length h + (length acc + 1)) with (S (length h + length acc)) by lia.
    cbn [seq zip zip_with map uncurry raw_clones length].
    f_equal. f_equal.
    + by rewrite <- !app_assoc.
    + by rewrite <- !app_assoc.
Qed.

Lemma flag_loop_eq h ps : forall w pre,
  tensors w = h ++ pre ++ raw_clones h ps -> in_store h ps = true ->
  for_each flag_body (zip (seq (length h + length pre) (length ps)) ps) w
  = (inr tt, set_tensors (h ++ pre ++ master_copy h ps) w).
Proof.
  induction ps as [|p ps IH]; intros w pre Hw Hps.
  - cbn. cbn in Hw. rewrite <- Hw. by destruct w.
  - apply in_store_cons in Hps as [Hp Hps].
    cbn [length seq zip zip_with]. rewrite for_each_cons.
    assert (Hstep : flag_body (length h + length pre, p) w
              = (inr tt,
                 set_tensors (h ++ (pre ++ [TensorObj (data (h !!! p)) None (requires_grad (h !!! p))])
                                ++ raw_clones h ps) w)).
    { unfold flag_body.
      assert (Hlook : tensors w !! p = Some (h !!! p)).
      { rewrite Hw. by apply lookup_in_store. }
      rewrite (bind_ok _ _ _ _ _ (deref_ok p w (h !!! p) Hlook)).
      unfold set_requires_grad.
      assert (Hclone : tensors w !! (length h + length pre)
                       = Some (TensorObj (data (h !!! p)) None false)).
      { rewrite Hw, lookup_app_r by lia.
        replace (length h + length pre - length h) with (length pre) by lia.
        rewrite lookup_app_r by lia. by rewrite Nat.sub_diag. }
      rewrite (bind_ok _ _ _ _ _ (deref_ok _ w _ Hclone)).
      unfold store. cbn. f_equal. f_equal. rewrite Hw.
      rewrite insert_app_r_alt by lia.
      replace (length h + length pre - length h) with (length pre) by lia.
      rewrite insert_app_r_alt by lia. rewrite Nat.sub_diag. cbn.
      by rewrite <- !app_assoc. }
    rewrite (bind_ok _ _ _ _ _ Hstep).
    replace (S (length h + length pre))
      with (length h + length (pre ++ [TensorObj (data (h !!! p)) None (requires_grad (h !!! p))]))
      by (rewrite length_app; cbn; lia).
    rewrite (IH (set_tensors (h ++ (pre ++ [TensorObj (data (h !!! p)) None (requires_grad (h !!! p))])
                                ++ raw_clones h ps) w) _ eq_refl Hps).
    unfold set_tensors. cbn [tensors dicts log master_copy map]. by rewrite <- !app_assoc.
Qed.

Lemma wrap_fp16_model_eq m w :
  in_store (tensors w) (all_params m) = true ->
  wrap_fp16_model cast m w
  = (inr (set_fp16_enabled (patched cast m)),
     World (cast_all Float (norm_params m) (cast_all Half (all_params m) (tensors w)))
           (dicts w)
           (log w ++ [EvHalf (all_params m)] ++ float_events m)).
Proof.
  intros Hm. unfold wrap_fp16_model.
  rewrite (bind_ok _ _ _ _ _ (module_half_eq m w Hm)).
  assert (Hm' : in_store (cast_all Half (all_params m) (tensors w)) (all_params m) = true).
  { by rewrite (in_store_length (tensors w)) by apply length_cast_all. }
  pose proof (patch_norm_fp32_eq m (World (cast_all Half (all_params m) (tensors w)) (dicts w)
                                          (log w ++ [EvHalf (all_params m)])) Hm') as Hrun.
  rewrite (bind_ok _ _ _ _ _ Hrun). unfold ret. cbn [tensors dicts log].
  by rewrite <- app_assoc.
Qed.

Lemma all_params_converted m : all_params (set_fp16_enabled (patched cast m)) = all_params m.
Proof.
  induction m as [kind ps flag fwd children IH] using nn_module_ind'.
  cbn [patched set_fp16_enabled all_params m_parameters m_children]. f_equal.
  induction IH as [|c cs Hc _ IHcs]; [done|]. cbn. by rewrite Hc, IHcs.
Qed.

Lemma parameters_converted m : parameters (set_fp16_enabled (patched cast m)) = parameters m.
Proof. unfold parameters. by rewrite all_params_converted. Qed.

(** [first_occurrences] keeps a duplicate-free sublist. *)
Lemma first_occurrences_elem seen l p :
  p ∈ first_occurrences seen l <-> p ∈ l /\ p ∉ seen.
Proof.
  revert seen. induction l as [|x l IH]; intros seen; cbn.
  - split; [by intros ?%elem_of_nil|by intros [?%elem_of_nil _]].
  - case_bool_decide as Hx.
    + rewrite IH, elem_of_cons. split.
      * intros [? ?]. auto.
      * intros [[->|?] ?]; done.
    + rewrite !elem_of_cons, IH. split.
      * intros [->|[Hl Hs]]; [by auto|].
        split; [by right|]. intros ?. apply Hs. by right.
      * intros [[->|Hl] Hs]; [by left|].
        destruct (decide (p = x)) as [->|Hne]; [by left|]. right.
        split; [done|]. by intros [?|?]%elem_of_cons.
Qed.

Lemma first_occurrences_NoDup seen l : NoDup (first_occurrences seen l).
Proof.
  revert seen. induction l as [|x l IH]; intros seen; cbn; [constructor|].
  case_bool_decide; [done|]. constructor; [|done].
  rewrite first_occurrences_elem. intros [_ Hx]. apply Hx. by left.
Qed.

Lemma parameters_NoDup m : NoDup (parameters m).
Proof. apply first_occurrences_NoDup. Qed.

Lemma elem_of_parameters m p : p ∈ parameters m <-> p ∈ all_params m.
Proof.
  unfold parameters. rewrite first_occurrences_elem. split; [by intros []|].
  intros Hp. split; [done|]. apply not_elem_of_nil.
Qed.

Lemma in_store_parameters h m :
  in_store h (all_params m) = true -> in_store h (parameters m) = true.
Proof.
  rewrite !in_store_spec, !Forall_forall. intros H p Hp.
  by apply H, elem_of_parameters.
Qed.

(** *** The optimizer built from the config *)

Lemma build_optimizer_inv self runner param_copy model' w runner' w' :
  build_optimizer self runner param_copy model' w = (inr runner', w') ->
  exists cfg cls,
    dicts w !! ph_optimizer self = Some cfg
    /\ cfg !! "type" = Some (PStr cls)
    /\ torch_optim_has cls = true
    /\ optimizer_init_check cls param_copy (delete "type" cfg) = None
    /\ runner' = MkRunner (DataParallel model')
                          (Optimizer cls (delete "type" cfg) [param_copy])
                          (r_outputs runner)
    /\ w' = World (tensors w) (dicts w ++ [delete "type" cfg])
                  (log w ++ [EvOptimizerInit cls param_copy (delete "type" cfg)]).
Proof.
  unfold build_optimizer. intros H.
  apply bind_ok_inv in H as (d & w1 & Hcopy & H).
  unfold dict_copy in Hcopy.
  destruct (dicts w !! ph_optimizer self) as [cfg|] eqn:Hcfg; [|done].
  injection Hcopy as <- <-.
  apply bind_ok_inv in H as (ty & w2 & Hpop & H).
  unfold dict_pop in Hpop. cbn [dicts set_dicts] in Hpop.
  rewrite lookup_app_r, Nat.sub_diag in Hpop by done. cbn in Hpop.
  destruct (cfg !! "type") as [v|] eqn:Hty; [|done].
  injection Hpop as <- <-.
  apply bind_ok_inv in H as (cls & w3 & Hget & H).
  destruct v as [s| | |]; try done. cbn in Hget.
  destruct (torch_optim_has s) eqn:Hhas; [|done].
  injection Hget as <- <-.
  apply bind_ok_inv in H as (kwargs & w4 & Hitems & H).
  unfold dict_items in Hitems. cbn [dicts set_dicts] in Hitems.
  rewrite insert_app_r_alt, Nat.sub_diag in Hitems by done. cbn [insert list_insert] in Hitems.
  rewrite lookup_app_r, Nat.sub_diag in Hitems by done. cbn in Hitems.
  injection Hitems as <- <-.
  apply bind_ok_inv in H as (opt & w5 & Hnew & H).
  unfold optimizer_new, bind, emit in Hnew. cbn in Hnew.
  destruct (optimizer_init_check s param_copy (delete "type" cfg)) eqn:Hcheck; [done|].
  injection Hnew as <- <-. injection H as <- <-.
  exists cfg, s. repeat (split; [done|]). done.
Qed.

Lemma build_optimizer_dicts self runner param_copy model' w r w' cfg :
  dicts w !! ph_optimizer self = Some cfg ->
  build_optimizer self runner param_copy model' w = (r, w') ->
  dicts w' !! ph_optimizer self = Some cfg.
Proof.
  intros Hcfg. unfold build_optimizer, bind, dict_copy. rewrite Hcfg.
  assert (Hlt : ph_optimizer self < length (dicts w)) by by eapply lookup_lt_Some.
  assert (Hkeep : forall x, (dicts w ++ [x]) !! ph_optimizer self = Some cfg).
  { intros x. by rewrite lookup_app_l. }
  unfold dict_pop. cbn [dicts set_dicts].
  rewrite lookup_app_r, Nat.sub_diag by done. cbn [lookup list_lookup].
  destruct (cfg !! "type") as [v|]; [|intros [= <- <-]; cbn; apply Hkeep].
  cbn [dicts set_dicts]. rewrite insert_app_r_alt, Nat.sub_diag by done.
  cbn [insert list_insert].
  destruct (getattr_optim v _) as [[e|cls] w3] eqn:Hget.
  - assert (w3 = World (tensors w) (dicts w ++ [delete "type" cfg]) (log w)) as ->.
    { destruct v as [s| | |]; cbn in Hget; try (by inversion Hget).
      destruct (torch_optim_has s); by inversion Hget. }
    intros [= <- <-]. cbn. apply Hkeep.
  - assert (w3 = World (tensors w) (dicts w ++ [delete "type" cfg]) (log w)) as ->.
    { destruct v as [s| | |]; cbn in Hget; try (by inversion Hget).
      destruct (torch_optim_has s); by inversion Hget. }
    unfold dict_items. cbn [dicts].
    rewrite lookup_app_r, Nat.sub_diag by done. cbn [lookup list_lookup].
    unfold optimizer_new, bind, emit. cbn.
    destruct (optimizer_init_check cls param_copy (delete "type" cfg));
      intros [= <- <-]; cbn; apply Hkeep.
Qed.

Lemma in_store_mono h acc ps : in_store h ps = true -> in_store (h ++ acc) ps = true.
Proof.
  rewrite !in_store_spec. intros H. eapply Forall_impl; [done|].
  intros p Hp. rewrite length_app. cbn in *. lia.
Qed.

Lemma before_run_prepared self runner w :
  let model := module_of (r_model runner) in
  in_store (tensors w) (all_params model) = true ->
  before_run cast self runner w
  = build_optimizer self runner
      (seq (length (tensors w)) (length (parameters model)))
      (set_fp16_enabled (patched cast model))
      (World (prepared_store model (tensors w)) (dicts w)
             (log w ++ map (uncurry EvClone)
                           (zip (parameters model)
                                (seq (length (tensors w)) (length (parameters model))))
                    ++ [EvHalf (all_params model)] ++ float_events model)).
Proof.
  intros model Hm. rewrite before_run_unfold. fold model.
  pose proof (in_store_parameters _ _ Hm) as Hps.
  pose proof (clone_loop_eq (tensors w) (parameters model) w [] (eq_sym (app_nil_r _)) Hps)
    as Hclone.
  cbn [length app] in Hclone. rewrite Nat.add_0_r in Hclone.
  rewrite (bind_ok _ _ _ _ _ Hclone).
  set (w1 := World _ _ _).
  pose proof (flag_loop_eq (tensors w) (parameters model) w1 [] eq_refl Hps) as Hflag.
  cbn [length app] in Hflag. rewrite Nat.add_0_r in Hflag.
  rewrite (bind_ok _ _ _ _ _ Hflag).
  set (w2 := set_tensors _ w1).
  assert (Hm2 : in_store (tensors w2) (all_params model) = true).
  { unfold w2. cbn. by apply in_store_mono. }
  rewrite (bind_ok _ _ _ _ _ (wrap_fp16_model_eq model w2 Hm2)).
  unfold w2, w1, prepared_store. cbn [tensors dicts log set_tensors app].
  by rewrite <- !app_assoc.
Qed.

Lemma before_run_inv self runner w runner' w' :
  let model := module_of (r_model runner) in
  let param_copy := seq (length (tensors w)) (length (parameters model)) in
  in_store (tensors w) (all_params model) = true ->
  before_run cast self runner w = (inr runner', w') ->
  exists cfg cls,
    dicts w !! ph_optimizer self = Some cfg
    /\ cfg !! "type" = Some (PStr cls)
    /\ torch_optim_has cls = true
    /\ optimizer_init_check cls param_copy (delete "type" cfg) = None
    /\ runner' = MkRunner (DataParallel (set_fp16_enabled (patched cast model)))
                          (Optimizer cls (delete "type" cfg) [param_copy])
                          (r_outputs runner)
    /\ w' = World (prepared_store model (tensors w)) (dicts w ++ [delete "type" cfg])
                  (log w ++ map (uncurry EvClone) (zip (parameters model) param_copy)
                         ++ [EvHalf (all_params model)] ++ float_events model
                         ++ [EvOptimizerInit cls param_copy (delete "type" cfg)]).
Proof.
  intros model param_copy Hm H. rewrite before_run_prepared in H by done.
  apply build_optimizer_inv in H as (cfg & cls & ? & ? & ? & ? & -> & ->).
  exists cfg, cls. repeat (split; [done|]). cbn [tensors dicts log].
  by rewrite <- !app_assoc.
Qed.

Lemma all_params_modules m n : n ∈ modules m -> all_params n ⊆ all_params m.
Proof.
  induction m as [kind ps flag fwd children IH] using nn_module_ind'.
  cbn [modules all_params m_parameters m_children].
  intros [->|Hn]%elem_of_cons; [done|].
  intros p Hp. apply elem_of_app. right.
  induction IH as [|c cs Hc _ IHcs]; [by apply elem_of_nil in Hn|].
  cbn in *. apply elem_of_app. apply elem_of_app in Hn as [Hn|Hn].
  - left. by apply Hc.
  - right. by apply IHcs.
Qed.

Lemma norm_params_all m p : p ∈ norm_params m -> p ∈ all_params m.
Proof.
  intros (n & Hn & _ & Hp)%elem_of_norm_params. by eapply all_params_modules.
Qed.

Lemma tensor_cast_cast ty ty' t : tensor_cast ty (tensor_cast ty' t) = tensor_cast ty t.
Proof. destruct t as [d [g|] rg]; done. Qed.

(** The model's parameters in the prepared store: cast, nothing else. *)
Lemma prepared_param_lookup m h p :
  p < length h ->
  p ∈ all_params m ->
  prepared_store m h !! p
  = Some (tensor_cast (if decide (p ∈ norm_params m) then Float else Half) (h !!! p)).
Proof.
  intros Hp Hall. unfold prepared_store. rewrite !lookup_cast_all.
  rewrite (decide_True (P := p ∈ all_params m)) by done.
  rewrite lookup_in_store by done.
  destruct (decide (p ∈ norm_params m)); cbn; [|done]. by rewrite tensor_cast_cast.
Qed.

(** The clones in the prepared store: fresh objects past the old store. *)
Lemma prepared_clone_lookup m h i p :
  in_store h (all_params m) = true ->
  parameters m !! i = Some p ->
  prepared_store m h !! (length h + i)
  = Some (TensorObj (data (h !!! p)) None (requires_grad (h !!! p))).
Proof.
  intros Hm Hi. unfold prepared_store. rewrite !lookup_cast_all.
  apply in_store_spec in Hm. rewrite Forall_forall in Hm.
  assert (Hfresh : length h + i ∉ all_params m).
  { intros Hin%Hm. lia. }
  rewrite decide_False by (intros ?%norm_params_all; done).
  rewrite decide_False by done.
  rewrite lookup_app_r by lia.
  replace (length h + i - length h) with i by lia.
  unfold master_copy. by rewrite list_lookup_fmap, Hi.
Qed.

Lemma alloc_dicts t : preserves dicts (alloc t).
Proof. done. Qed.

Lemma preserves_map_m_Forall {X A B} (proj : world -> X) (f : A -> M B) l :
  Forall (fun x => preserves proj (f x)) l -> preserves proj (map_m f l).
Proof.
  induction 1 as [|x l Hx _ IH]; [done|].
  apply preserves_bind; [done|]. intros y.
  apply preserves_bind; [done|]. intros ys. done.
Qed.

Lemma clone_data_dicts p : preserves dicts (clone_data p).
Proof. unfold clone_data. pres. apply alloc_dicts. Qed.

Lemma flag_body_dicts x : preserves dicts (flag_body x).
Proof. destruct x. unfold flag_body, set_requires_grad. pres. Qed.

Lemma param_cast_dicts ty p : preserves dicts (param_cast ty p).
Proof. unfold param_cast. pres. Qed.

Lemma module_float_dicts m : preserves dicts (module_float m).
Proof. unfold module_float. pres. Qed.

Lemma patch_norm_fp32_dicts m : preserves dicts (patch_norm_fp32 cast m).
Proof.
  induction m as [kind ps flag fwd children IH] using nn_module_ind'.
  cbn [patch_norm_fp32]. fold (map_m (patch_norm_fp32 cast) children).
  apply preserves_bind.
  - destruct (is_norm kind); [|done].
    apply preserves_bind; [apply module_float_dicts|done].
  - intros fwd'. apply preserves_bind; [by apply preserves_map_m_Forall|done].
Qed.

Lemma wrap_fp16_model_dicts m : preserves dicts (wrap_fp16_model cast m).
Proof.
  unfold wrap_fp16_model, module_half. pres;
    auto using param_cast_dicts, patch_norm_fp32_dicts.
Qed.

(** C6. For every optimizer config held by the prepare hook, [before_run]
    leaves that dictionary as it was, whatever the outcome: ['type'] is
    popped from a copy.  When [before_run] returns, the config names the
    optimizer class under ['type'], and the optimizer constructor receives
    the other entries of the config, unchanged, as keyword arguments. *)
Theorem before_run_keeps_config self runner w r w' cfg :
  dicts w !! ph_optimizer self = Some cfg ->
  before_run cast self runner w = (r, w') ->
  dicts w' !! ph_optimizer self = Some cfg
  /\ (forall runner', r = inr runner' ->
        exists cls param_copy pre,
          cfg !! "type" = Some (PStr cls)
          /\ r_optimizer runner' = Optimizer cls (delete "type" cfg) [param_copy]
          /\ (forall k, k <> "type" -> opt_kwargs (r_optimizer runner') !! k = cfg !! k)
          /\ log w' = pre ++ [EvOptimizerInit cls param_copy (delete "type" cfg)]
          /\ dicts w' = dicts w ++ [delete "type" cfg]).
Proof.
  intros Hcfg H. rewrite before_run_unfold in H.
  set (model := module_of (r_model runner)) in *.
  unfold bind in H.
  destruct (map_m clone_data (parameters model) w) as [[e|param_copy] w1] eqn:E1.
  { injection H as <- <-. split; [|done].
    by rewrite (preserves_eq dicts _ _ _ _ (preserves_map_m dicts _ _ clone_data_dicts) E1). }
  assert (H1 : dicts w1 = dicts w).
  { apply (preserves_eq dicts _ _ _ _ (preserves_map_m dicts _ _ clone_data_dicts) E1). }
  destruct (for_each flag_body (zip param_copy (parameters model)) w1) as [[e|[]] w2] eqn:E2.
  { injection H as <- <-. split; [|done].
    by rewrite (preserves_eq dicts _ _ _ _ (preserves_for_each dicts _ _ flag_body_dicts) E2), H1. }
  assert (H2 : dicts w2 = dicts w).
  { by rewrite (preserves_eq dicts _ _ _ _ (preserves_for_each dicts _ _ flag_body_dicts) E2). }
  destruct (wrap_fp16_model cast model w2) as [[e|model'] w3] eqn:E3.
  { injection H as <- <-. split; [|done].
    by rewrite (preserves_eq dicts _ _ _ _ (wrap_fp16_model_dicts model) E3), H2. }
  assert (H3 : dicts w3 = dicts w).
  { by rewrite (preserves_eq dicts _ _ _ _ (wrap_fp16_model_dicts model) E3). }
  assert (Hcfg3 : dicts w3 !! ph_optimizer self = Some cfg) by by rewrite H3.
  split; [by eapply build_optimizer_dicts|].
  intros runner' ->.
  apply build_optimizer_inv in H as (cfg' & cls & Hcfg' & Hty & _ & _ & -> & ->).
  assert (cfg' = cfg) as -> by congruence.
  exists cls, param_copy, (log w3). split; [done|]. split; [done|].
  split; [|by rewrite H3].
  intros k Hk. cbn. by apply lookup_delete_ne.
Qed.

(** C10. For every model parameter, the clone that [before_run] hands to
    the new optimizer has the [requires_grad] flag of the parameter, and
    the conversion of the model leaves the parameter's own flag as it was. *)
Theorem master_copy_requires_grad self runner w runner' w' :
  let model := module_of (r_model runner) in
  in_store (tensors w) (all_params model) = true ->
  before_run cast self runner w = (inr runner', w') ->
  exists param_copy,
    param_groups (r_optimizer runner') = [param_copy]
    /\ length param_copy = length (parameters model)
    /\ forall i p,
         parameters model !! i = Some p ->
         exists c t tc tp,
           param_copy !! i = Some c
           /\ tensors w !! p = Some t
           /\ tensors w' !! c = Some tc
           /\ tensors w' !! p = Some tp
           /\ requires_grad tc = requires_grad t
           /\ requires_grad tp = requires_grad t.
Proof.
  intros model Hm H.
  apply before_run_inv in H as (cfg & cls & _ & _ & _ & _ & -> & ->); [|done].
  fold model. eexists. split; [done|]. split; [by rewrite length_seq|].
  intros i p Hi.
  assert (Hpm : p ∈ all_params model).
  { apply elem_of_parameters. by eapply list_elem_of_lookup_2. }
  assert (Hp : p < length (tensors w)).
  { apply in_store_spec in Hm. rewrite Forall_forall in Hm. by apply Hm. }
  exists (length (tensors w) + i), (tensors w !!! p). eexists _, _.
  split; [apply lookup_seq; split; [done|by eapply lookup_lt_Some]|].
  split; [by apply list_lookup_lookup_total_lt|].
  split; [by apply prepared_clone_lookup|].
  split; [by apply prepared_param_lookup|]. done.
Qed.

(** C2. [before_run] clones the data of every model parameter as it stands
    on entry, before any conversion: the clones are new objects, one per
    parameter and in the parameters' order, and none of them is a parameter
    of the model.  It then converts the model (half precision, the
    normalization modules back to full precision), and replaces
    [runner.optimizer] by an optimizer of the class the config names under
    ['type'], built over the clones.  The framework calls happen in that
    order. *)
Theorem before_run_master_copy self runner w runner' w' :
  let model := module_of (r_model runner) in
  in_store (tensors w) (all_params model) = true ->
  before_run cast self runner w = (inr runner', w') ->
  exists param_copy cfg cls,
    param_copy = seq (length (tensors w)) (length (parameters model))
    /\ (forall i p,
          parameters model !! i = Some p ->
          exists c t tc,
            param_copy !! i = Some c
            /\ tensors w !! p = Some t
            /\ tensors w' !! c = Some tc
            /\ data tc = data t /\ grad tc = None)
    /\ (forall c, c ∈ param_copy -> c ∉ all_params model)
    /\ module_of (r_model runner') = set_fp16_enabled (patched cast model)
    /\ (forall p,
          p ∈ all_params model ->
          exists t,
            tensors w !! p = Some t
            /\ tensors w' !! p
               = Some (tensor_cast (if decide (p ∈ norm_params model) then Float else Half) t))
    /\ dicts w !! ph_optimizer self = Some cfg
    /\ cfg !! "type" = Some (PStr cls)
    /\ r_optimizer runner' = Optimizer cls (delete "type" cfg) [param_copy]
    /\ log w' = log w
         ++ map (uncurry EvClone) (zip (parameters model) param_copy)
         ++ [EvHalf (all_params model)]
         ++ map (fun n => EvFloat (all_params n))
                (List.filter (fun n => is_norm (m_kind n)) (modules model))
         ++ [EvOptimizerInit cls param_copy (delete "type" cfg)].
Proof.
  intros model Hm H.
  apply before_run_inv in H as (cfg & cls & Hcfg & Hty & _ & _ & -> & ->); [|done].
  fold model. exists (seq (length (tensors w)) (length (parameters model))), cfg, cls.
  pose proof Hm as HmF. apply in_store_spec in HmF. rewrite Forall_forall in HmF.
  split; [done|]. split; [|split; [|split; [done|split; [|split; [done|split; [done|split; [done|]]]]]]].
  - intros i p Hi.
    assert (Hp : p < length (tensors w)).
    { apply HmF, elem_of_parameters. by eapply list_elem_of_lookup_2. }
    exists (length (tensors w) + i), (tensors w !!! p). eexists.
    split; [apply lookup_seq; split; [done|by eapply lookup_lt_Some]|].
    split; [by apply list_lookup_lookup_total_lt|].
    split; [by apply prepared_clone_lookup|]. done.
  - intros c [Hc _]%elem_of_seq Hin%HmF. lia.
  - intros p Hp. exists (tensors w !!! p).
    split; [by apply list_lookup_lookup_total_lt, HmF|].
    by apply prepared_param_lookup; [apply HmF|].
  - cbn [log]. by rewrite float_events_modules.
Qed.

Lemma copy_loop_pairs {A B} (f : A -> B -> event) (l : list A) (k : list B) j :
  map (uncurry f) (zip l k) !! j
  = match l !! j, k !! j with
    | Some a, Some b => Some (f a b)
    | _, _ => None
    end.
Proof.
  revert k j. induction l as [|a l IH]; intros [|b k] [|j]; cbn; try done.
  by destruct (l !! j).
Qed.


(** *** Loops that rewrite one object per element *)

Lemma length_update_at {B} (f : B -> tensor -> tensor) h pb :
  length (update_at f h pb) = length h.
Proof. unfold update_at. destruct (h !! pb.1); [apply length_insert|done]. Qed.

Lemma lookup_update_at {B} (f : B -> tensor -> tensor) h p b q :
  update_at f h (p, b) !! q = if decide (p = q) then f b <$> h !! q else h !! q.
Proof.
  unfold update_at. cbn. destruct (decide (p = q)) as [->|Hne].
  - destruct (h !! q) as [t|] eqn:Hq; [|by rewrite Hq].
    by rewrite list_lookup_insert_eq by by eapply lookup_lt_Some.
  - destruct (h !! p); [|done]. by rewrite list_lookup_insert_ne.
Qed.

Lemma lookup_update_all_notin {B} (f : B -> tensor -> tensor) l h q :
  q ∉ l.*1 -> update_all f l h !! q = h !! q.
Proof.
  revert h. induction l as [|[p b] l IH]; intros h Hq; [done|].
  cbn in Hq. apply not_elem_of_cons in Hq as [Hne Hq].
  cbn. unfold update_all in IH. rewrite IH by done.
  rewrite lookup_update_at. by rewrite decide_False.
Qed.

Lemma lookup_update_all_in {B} (f : B -> tensor -> tensor) l h q b :
  NoDup l.*1 -> (q, b) ∈ l -> update_all f l h !! q = f b <$> h !! q.
Proof.
  revert h. induction l as [|[p b'] l IH]; intros h Hnd Hin; [by apply elem_of_nil in Hin|].
  cbn in Hnd. apply NoDup_cons in Hnd as [Hp Hnd].
  cbn. fold (update_all f l (update_at f h (p, b'))).
  apply elem_of_cons in Hin as [[= -> ->]|Hin].
  - rewrite lookup_update_all_notin by done.
    rewrite lookup_update_at. by rewrite decide_True.
  - rewrite IH by done. rewrite lookup_update_at.
    rewrite decide_False; [done|]. intros ->. apply Hp.
    apply list_elem_of_fmap. by exists (q, b).
Qed.

(** With an idempotent rewrite, duplicates do no harm. *)
Lemma lookup_update_all_idemp (f : tensor -> tensor) (ps : list nat) h q :
  (forall t, f (f t) = f t) ->
  update_all (fun _ : unit => f) (map (fun p => (p, tt)) ps) h !! q
  = if decide (q ∈ ps) then f <$> h !! q else h !! q.
Proof.
  intros Hf. revert h. induction ps as [|p ps IH]; intros h; [done|].
  cbn. fold (update_all (fun _ : unit => f) (map (fun p => (p, tt)) ps)
                        (update_at (fun _ : unit => f) h (p, tt))).
  rewrite IH, lookup_update_at.
  destruct (decide (p = q)) as [->|Hne].
  - rewrite (decide_True (P := q ∈ q :: ps)) by left.
    destruct (decide (q ∈ ps)); [|done].
    destruct (h !! q); cbn; [|done]. by rewrite Hf.
  - destruct (decide (q ∈ ps)).
    + by rewrite decide_True by by right.
    + rewrite decide_False; [done|]. intros [->|?]%elem_of_cons; done.
Qed.

(** A loop whose body rewrites its key's object, when it goes through. *)
Lemma loop_update_all {A B} (body : A -> M unit) (key : A -> nat * B)
    (f : B -> tensor -> tensor) l :
  (forall x w w', body x w = (inr tt, w') ->
                  (key x).1 < length (tensors w)
                  /\ tensors w' = update_at f (tensors w) (key x)) ->
  forall w w',
    for_each body l w = (inr tt, w') ->
    Forall (fun x => (key x).1 < length (tensors w)) l
    /\ tensors w' = update_all f (map key l) (tensors w).
Proof.
  intros Hbody. induction l as [|x l IH]; intros w w' H.
  - inversion H. by split.
  - rewrite for_each_cons in H. apply bind_ok_inv in H as ([] & w1 & Hx & H).
    apply Hbody in Hx as [Hvalid Hx]. apply IH in H as [Hall H].
    rewrite Hx, length_update_at in Hall. split; [by constructor|].
    rewrite H, Hx. done.
Qed.

Lemma zero_grad_param_inv p w w' :
  zero_grad_param p w = (inr tt, w') ->
  p < length (tensors w)
  /\ tensors w' = update_at (fun _ : unit => zero_t) (tensors w) (p, tt).
Proof.
  unfold zero_grad_param. intros H.
  apply bind_ok_inv in H as (t & ? & [-> Hp]%deref_ok_inv & H).
  split; [by eapply lookup_lt_Some|].
  unfold update_at. cbn. rewrite Hp. unfold zero_t.
  destruct (grad t) as [g|] eqn:Hg; cbn.
  - by inversion H.
  - inversion H; subst. symmetry. apply list_insert_id. rewrite Hp.
    destruct t; cbn in *; by subst.
Qed.

Lemma accumulate_grad_inv p g w w' :
  accumulate_grad p g w = (inr tt, w') ->
  p < length (tensors w)
  /\ tensors w' = update_at accumulate_t (tensors w) (p, g).
Proof.
  unfold accumulate_grad. intros H.
  apply bind_ok_inv in H as (t & ? & [-> Hp]%deref_ok_inv & H).
  split; [by eapply lookup_lt_Some|].
  unfold update_at. cbn. rewrite Hp. unfold accumulate_t.
  destruct (grad t) as [old|]; by inversion H.
Qed.

Lemma unscale_param_tensors s p w w' :
  unscale_param s p w = (inr tt, w') ->
  p < length (tensors w)
  /\ tensors w' = update_at (fun _ : unit => unscale_t s) (tensors w) (p, tt).
Proof.
  unfold unscale_param. intros H.
  apply bind_ok_inv in H as (t & ? & [-> Hp]%deref_ok_inv & H).
  split; [by eapply lookup_lt_Some|].
  unfold update_at. cbn. rewrite Hp. unfold unscale_t.
  destruct (grad t) as [g|] eqn:Hg; cbn.
  - unfold grad_div_ in H. rewrite (bind_ok _ _ _ _ _ (deref_ok _ _ _ Hp)), Hg in H.
    by inversion H.
  - inversion H; subst. symmetry. apply list_insert_id. rewrite Hp.
    destruct t; cbn in *; by subst.
Qed.

Lemma for_each_concat {A} (f : A -> M unit) (ls : list (list A)) w :
  for_each (fun l => for_each f l) ls w = for_each f (concat ls) w.
Proof.
  revert w. induction ls as [|l ls IH]; intros w; [done|].
  cbn [concat]. rewrite for_each_app, for_each_cons. unfold bind.
  destruct (for_each f l w) as [[e|[]] w1]; [done|]. apply IH.
Qed.

(** *** Scaling and unscaling *)

Lemma after_train_iter_split self runner w :
  after_train_iter self runner w
  = (fp32_weight <- gradients_for_step self runner ;;
     optimizer_step (r_optimizer runner) ;;;
     copy_in_params (r_model runner) fp32_weight) w.
Proof.
  unfold after_train_iter, gradients_for_step.
  destruct (param_groups (r_optimizer runner)) as [|fp32_weight rest]; [done|].
  destruct (r_outputs runner !! "loss"), (distributed self), (grad_clip self);
    unfold bind, ret, raise; destruct_runs.
Qed.

Lemma master_separate_spec fp32_weight fp16 leaves :
  master_separate fp32_weight fp16 leaves = true ->
  NoDup fp32_weight
  /\ (forall p, p ∈ fp32_weight -> p ∉ fp16)
  /\ NoDup leaves
  /\ (forall p, p ∈ leaves -> p ∈ fp16).
Proof.
  unfold master_separate. rewrite !andb_true_iff, !forallb_Forall, !Forall_forall.
  intros [[[H1%bool_decide_eq_true H2] H3%bool_decide_eq_true] H4].
  split; [done|]. split; [|split; [done|]].
  - intros p Hp. apply H2 in Hp. apply negb_true_iff in Hp.
    by apply bool_decide_eq_false in Hp.
  - intros p Hp. apply H4 in Hp. by apply bool_decide_eq_true in Hp.
Qed.

Lemma zip_with_plus_zeros (old g : list Qc) :
  length old = length g ->
  zip_with Qcplus (map (fun _ => 0%Qc) old) g = g.
Proof.
  revert g. induction old as [|x old IH]; intros [|y g] Hlen; try done.
  cbn in *. rewrite IH by lia. by rewrite Qcplus_0_l.
Qed.

Lemma scale_unscale (s : Qc) (g : list Qc) :
  s <> 0%Qc ->
  map (fun x => (x / s)%Qc) (map (fun x => (x * s)%Qc) g)
  = map (fun x => (x * s / s)%Qc) g
  /\ map (fun x => (x * s / s)%Qc) g = g.
Proof.
  intros Hs. split; [by rewrite map_map|].
  induction g as [|x g IH]; [done|]. cbn. rewrite IH. f_equal.
  field. done.
Qed.

(** Along a pair whose source has a gradient, [set_grad] leaves the values
    of that gradient in the destination; destinations are distinct and no
    source is a destination. *)
Lemma set_grad_loop_values l : forall w w',
  NoDup l.*1 ->
  (forall a b, (a, b) ∈ l -> b ∉ l.*1) ->
  for_each set_grad_body l w = (inr tt, w') ->
  forall a b tb g,
    (a, b) ∈ l -> tensors w !! b = Some tb -> grad tb = Some g ->
    exists ta', tensors w' !! a = Some ta' /\ t_vals <$> grad ta' = Some (t_vals g).
Proof.
  induction l as [|[a0 b0] l IH]; intros w w' Hnd Hsep H a b tb g Hin Hb Hg.
  { by apply elem_of_nil in Hin. }
  cbn in Hnd. apply NoDup_cons in Hnd as [Ha0 Hnd].
  rewrite for_each_cons in H. apply bind_ok_inv in H as ([] & w1 & Hstep & H).
  assert (Hsep' : forall a b, (a, b) ∈ l -> b ∉ l.*1).
  { intros a' b' Hin' Hb'. apply (Hsep a' b'); [by right|]. cbn. by right. }
  apply elem_of_cons in Hin as [[= -> ->]|Hin].
  - assert (Hkeep : tensors w' !! a0 = tensors w1 !! a0).
    { eapply (touches_eq _ _ _ _ _ _ (pairs_touch_firsts set_grad_body l set_grad_pair_touches) H).
      done. }
    rewrite Hkeep.
    apply set_grad_pair_inv in Hstep as (tb' & Hb' & [[Hnone _]|Hstep]); [congruence|].
    destruct Hstep as (g' & ta & gd & Hg' & Ha & -> & Hgd & ->).
    assert (g' = g) as -> by congruence.
    eexists. cbn. split; [apply list_lookup_insert_eq; by eapply lookup_lt_Some|]. done.
  - assert (Hb1 : tensors w1 !! b = Some tb).
    { rewrite <- Hb.
      eapply (touches_eq _ _ _ _ _ _ (set_grad_pair_touches a0 b0) Hstep).
      intros Heq. apply (Hsep a b); [by right|]. cbn. rewrite <- Heq. by left. }
    by eapply (IH w1 w' Hnd Hsep' H a b tb g).
Qed.

Lemma zip_fst_NoDup {A B} (l : list A) (k : list B) : NoDup l -> NoDup (zip l k).*1.
Proof.
  revert k. induction l as [|x l IH]; intros [|y k] Hnd; cbn; try constructor.
  - apply NoDup_cons in Hnd as [Hx _]. intros Hin. apply Hx.
    apply list_elem_of_fmap in Hin as ([a b] & -> & Hab).
    apply list_elem_of_lookup in Hab as [i Hi].
    apply lookup_zip_with_Some in Hi as (a' & b' & [= <- <-] & Hl & _).
    by eapply list_elem_of_lookup_2.
  - apply IH. by apply NoDup_cons in Hnd as [_ ?].
Qed.

Lemma elem_of_zip {A B} (l : list A) (k : list B) a b :
  (a, b) ∈ zip l k -> a ∈ l /\ b ∈ k.
Proof.
  intros [i Hi]%list_elem_of_lookup.
  apply lookup_zip_with_Some in Hi as (a' & b' & [= <- <-] & Hl & Hk).
  split; by eapply list_elem_of_lookup_2.
Qed.

Lemma grads_conform_spec h gs p g t old :
  grads_conform h gs = true -> (p, g) ∈ gs ->
  h !! p = Some t -> grad t = Some old -> length (t_vals old) = length g.
Proof.
  unfold grads_conform. rewrite forallb_Forall, Forall_forall.
  intros H Hin Hp Hg. apply H in Hin. rewrite Hp, Hg in Hin. by apply Nat.eqb_eq.
Qed.

Lemma zero_t_idemp t : zero_t (zero_t t) = zero_t t.
Proof.
  destruct t as [d [g|] rg]; [|done].
  unfold zero_t, with_vals. cbn. by rewrite map_map.
Qed.


(** *** Exceptions, end to end *)


(** *** [wrap_fp16_model], as a whole and applied twice *)

Lemma modules_converted m :
  Forall2 (converted_from cast) (modules m) (modules (set_fp16_enabled (patched cast m))).
Proof.
  induction m as [kind ps flag fwd children IH] using nn_module_ind'.
  cbn [modules patched set_fp16_enabled m_children]. constructor.
  - unfold converted_from. cbn. by rewrite !length_map.
  - rewrite map_map. apply Forall2_flat_map. apply Forall2_fmap_r.
    by apply Forall_Forall2_diag.
Qed.

Lemma norm_params_converted m :
  norm_params (set_fp16_enabled (patched cast m)) = norm_params m.
Proof.
  induction m as [kind ps flag fwd children IH] using nn_module_ind'.
  pose proof (all_params_converted (NNModule kind ps flag fwd children)) as Hall.
  cbn [patched set_fp16_enabled] in Hall |- *.
  cbn [norm_params m_kind m_children]. rewrite Hall. f_equal. clear Hall.
  induction IH as [|c cs Hc _ IHcs]; [done|]. cbn. by rewrite Hc, IHcs.
Qed.

Lemma wrap_store_idemp (m : nn_module) (h : list tensor) :
  cast_all Float (norm_params m)
    (cast_all Half (all_params m)
       (cast_all Float (norm_params m) (cast_all Half (all_params m) h)))
  = cast_all Float (norm_params m) (cast_all Half (all_params m) h).
Proof.
  apply list_eq. intros i. rewrite !lookup_cast_all.
  pose proof (norm_params_all m i) as Hsub.
  repeat case_decide; try (exfalso; auto; fail);
    destruct (h !! i); simpl; by rewrite ?tensor_cast_cast.
Qed.

(** [wrap_fp16_model] in closed form, with casts taken as exact. *)
Lemma wrap_fp16_model_closed m w :
  in_store (tensors w) (all_params m) = true ->
  exists m' w',
    wrap_fp16_model cast m w = (inr m', w')
    /\ Forall2 (converted_from cast) (modules m) (modules m')
    /\ (forall p, p ∈ all_params m ->
          exists t,
            tensors w !! p = Some t
            /\ tensors w' !! p
               = Some (tensor_cast (if decide (p ∈ norm_params m) then Float else Half) t))
    /\ (forall p, p ∉ all_params m -> tensors w' !! p = tensors w !! p)
    /\ length (tensors w') = length (tensors w)
    /\ dicts w' = dicts w
    /\ log w' = log w ++ [EvHalf (all_params m)]
                      ++ map (fun n => EvFloat (all_params n))
                             (List.filter (fun n => is_norm (m_kind n)) (modules m)).
Proof.
  intros Hm. eexists _, _. split; [by apply wrap_fp16_model_eq|].
  split; [apply modules_converted|]. cbn [tensors dicts log].
  pose proof Hm as HmF. apply in_store_spec in HmF. rewrite Forall_forall in HmF.
  split; [|split; [|split; [by rewrite !length_cast_all|split; [done|]]]].
  - intros p Hp. exists (tensors w !!! p).
    split; [by apply list_lookup_lookup_total_lt, HmF|].
    rewrite !lookup_cast_all. rewrite (decide_True (P := p ∈ all_params m)) by done.
    rewrite (list_lookup_lookup_total_lt _ _ (HmF _ Hp)).
    destruct (decide (p ∈ norm_params m)); cbn; [|done]. by rewrite tensor_cast_cast.
  - intros p Hp. rewrite !lookup_cast_all.
    rewrite decide_False by (intros ?%norm_params_all; done).
    by rewrite decide_False.
  - by rewrite float_events_modules.
Qed.

Lemma dtypes_of_cast ty t :
  dtypes_of (tensor_cast ty t) = (ty, (fun _ => ty) <$> grad t).
Proof. by destruct t as [d [g|] rg]. Qed.

Lemma shape_of_cast ty t : shape_of (tensor_cast ty t) = shape_of t.
Proof. by destruct t as [d [g|] rg]. Qed.

(** X1. [wrap_fp16_model] on a model whose parameters are in the store
    returns.  Every module keeps its kind, parameters and children; an
    [fp16_enabled] attribute is set to True exactly where a module has one
    and none is created; the forward of the normalization modules is
    wrapped.  Every parameter of the model ends in half precision, data and
    gradient, except those under a normalization module, which end in full
    precision; sizes and [requires_grad] stay, and a parameter without a
    gradient gets none.  Objects that are not parameters of the model are
    not touched, and the log shows one [half()] on the model followed by
    one [float()] per normalization module. *)
Theorem wrap_fp16_model_spec m w :
  in_store (tensors w) (all_params m) = true ->
  exists m' w',
    wrap_fp16_model cast m w = (inr m', w')
    /\ Forall2 (converted_from cast) (modules m) (modules m')
    /\ (forall p, p ∈ all_params m ->
          exists t t',
            tensors w !! p = Some t
            /\ tensors w' !! p = Some t'
            /\ dtypes_of t'
               = (let ty := if decide (p ∈ norm_params m) then Float else Half in
                  (ty, (fun _ => ty) <$> grad t))
            /\ shape_of t' = shape_of t)
    /\ (forall p, p ∉ all_params m -> tensors w' !! p = tensors w !! p)
    /\ length (tensors w') = length (tensors w)
    /\ dicts w' = dicts w
    /\ log w' = log w ++ [EvHalf (all_params m)]
                      ++ map (fun n => EvFloat (all_params n))
                             (List.filter (fun n => is_norm (m_kind n)) (modules m)).
Proof.
  intros Hm.
  destruct (wrap_fp16_model_closed m w Hm)
    as (m' & w' & Hrun & Hmods & Hparams & Hframe & Hlen & Hdicts & Hlog).
  exists m', w'. split; [done|]. split; [done|].
  split; [|by repeat split].
  intros p Hp. destruct (Hparams p Hp) as (t & Ht & Ht').
  exists t, (tensor_cast (if decide (p ∈ norm_params m) then Float else Half) t).
  split; [done|]. split; [done|]. split; [apply dtypes_of_cast|apply shape_of_cast].
Qed.

(** Converting a converted model again: with casts taken as exact, the
    store is the one the first conversion left. *)
Lemma wrap_fp16_model_again m w m1 w1 :
  in_store (tensors w) (all_params m) = true ->
  wrap_fp16_model cast m w = (inr m1, w1) ->
  exists m2 w2,
    wrap_fp16_model cast m1 w1 = (inr m2, w2)
    /\ tensors w2 = tensors w1
    /\ Forall2 (fun old new =>
                  fp16_enabled new = fp16_enabled old
                  /\ forward new = if is_norm (m_kind old)
                                   then patch_forward_module cast (forward old) Half Float true
                                   else forward old)
               (modules m1) (modules m2).
Proof.
  intros Hm H. rewrite wrap_fp16_model_eq in H by done. injection H as <- <-.
  set (m1 := set_fp16_enabled (patched cast m)).
  set (w1 := World _ _ _).
  assert (Hm1 : in_store (tensors w1) (all_params m1) = true).
  { unfold m1, w1. cbn [tensors]. rewrite all_params_converted.
    by rewrite (in_store_length (tensors w)) by by rewrite !length_cast_all. }
  eexists _, _. split; [by apply wrap_fp16_model_eq|]. cbn [tensors].
  split.
  - unfold m1, w1. cbn [tensors].
    rewrite all_params_converted, norm_params_converted. apply wrap_store_idemp.
  - pose proof (modules_converted m) as Hfirst. fold m1 in Hfirst.
    apply Forall2_Forall_r with (Q := fun n => fp16_enabled n = None \/ fp16_enabled n = Some true)
      in Hfirst.
    2:{ apply Forall_forall. intros old _ new (_ & _ & _ & Hflag & _).
        rewrite Hflag. destruct (fp16_enabled old); auto. }
    pose proof (modules_converted m1) as Hsecond.
    clear -Hfirst Hsecond. induction Hsecond as [|a b la lb Hab _ IH]; [constructor|].
    apply Forall_cons in Hfirst as [Ha Hla]. constructor; [|by apply IH].
    destruct Hab as (_ & _ & _ & Hflag & Hfwd). split; [|done].
    rewrite Hflag. by destruct Ha as [-> | ->].
Qed.

(** X2. Converting a converted model again returns and changes no dtype,
    size or [requires_grad] in the store; the parameters outside the
    normalization modules, already in half precision, are not changed at
    all (those under a normalization module go through [half()] and
    [float()] once more), and the [fp16_enabled] attributes stay as they
    are.  The forward functions are not protected in that way: the forward
    of every normalization module is wrapped a second time. *)
Theorem wrap_fp16_model_twice m w m1 w1 :
  in_store (tensors w) (all_params m) = true ->
  wrap_fp16_model cast m w = (inr m1, w1) ->
  exists m2 w2,
    wrap_fp16_model cast m1 w1 = (inr m2, w2)
    /\ map dtypes_of (tensors w2) = map dtypes_of (tensors w1)
    /\ map shape_of (tensors w2) = map shape_of (tensors w1)
    /\ (forall p, p ∉ norm_params m -> tensors w2 !! p = tensors w1 !! p)
    /\ Forall2 (fun old new =>
                  fp16_enabled new = fp16_enabled old
                  /\ forward new = if is_norm (m_kind old)
                                   then patch_forward_module cast (forward old) Half Float true
                                   else forward old)
               (modules m1) (modules m2).
Proof.
  intros Hm H.
  destruct (wrap_fp16_model_again m w m1 w1 Hm H) as (m2 & w2 & Hrun & Hsame & Hmods).
  exists m2, w2. rewrite Hsame. by repeat split.
Qed.

(** *** What the two copy loops leave in the store *)

Lemma data_copy_touches dst src : touches_only (eq dst) (data_copy_ dst src).
Proof. unfold data_copy_. touch. Qed.

Lemma data_copy_inv a b w w' :
  data_copy_ a b w = (inr tt, w') ->
  exists ta tb,
    tensors w !! a = Some ta /\ tensors w !! b = Some tb
    /\ t_size (data ta) = t_size (data tb)
    /\ w' = World (<[a := TensorObj (with_vals (data ta) (t_vals (data tb))) (grad ta)
                                   (requires_grad ta)]> (tensors w))
                  (dicts w) (log w ++ [EvCopyData a b]).
Proof.
  unfold data_copy_. intros H.
  apply bind_ok_inv in H as (ta & ? & [-> Ha]%deref_ok_inv & H).
  apply bind_ok_inv in H as (tb & ? & [-> Hb]%deref_ok_inv & H).
  apply bind_ok_inv in H as ([] & ? & [= <-] & H).
  unfold tdata_copy_ in H.
  destruct (decide (t_size (data ta) = t_size (data tb))) as [Hsz|]; [|by inversion H].
  exists ta, tb. repeat (split; [done|]). by inversion H.
Qed.

Lemma pair_loop_sub (l : list (nat * nat)) a0 b0 :
  (forall a b, (a, b) ∈ (a0, b0) :: l -> b ∉ ((a0, b0) :: l).*1) ->
  forall a b, (a, b) ∈ l -> b ∉ l.*1.
Proof.
  intros Hsep a b Hin Hb. apply (Hsep a b); [by right|]. cbn. by right.
Qed.

Lemma copy_loop_effect l : forall w w',
  NoDup l.*1 ->
  (forall a b, (a, b) ∈ l -> b ∉ l.*1) ->
  for_each copy_in_body l w = (inr tt, w') ->
  forall a b,
    (a, b) ∈ l ->
    exists ta tb,
      tensors w !! a = Some ta /\ tensors w !! b = Some tb
      /\ t_size (data ta) = t_size (data tb)
      /\ tensors w' !! a
         = Some (TensorObj (with_vals (data ta) (t_vals (data tb))) (grad ta) (requires_grad ta))
      /\ tensors w' !! b = Some tb.
Proof.
  induction l as [|[a0 b0] l IH]; intros w w' Hnd Hsep H a b Hin.
  { by apply elem_of_nil in Hin. }
  cbn in Hnd. apply NoDup_cons in Hnd as [Ha0 Hnd].
  rewrite for_each_cons in H. apply bind_ok_inv in H as ([] & w1 & Hstep & H).
  pose proof (pair_loop_sub l a0 b0 Hsep) as Hsep'.
  assert (Hrest : forall p, p ∉ l.*1 -> tensors w' !! p = tensors w1 !! p).
  { intros p Hp.
    by eapply (touches_eq _ _ _ _ _ _ (pairs_touch_firsts copy_in_body l data_copy_touches) H). }
  assert (Hhead : forall p, p <> a0 -> tensors w1 !! p = tensors w !! p).
  { intros p Hp. eapply (touches_eq _ _ _ _ _ _ (data_copy_touches a0 b0) Hstep). congruence. }
  assert (Hsrc : forall a b, (a, b) ∈ (a0, b0) :: l -> b <> a0 /\ b ∉ l.*1).
  { intros a' b' Hin'. specialize (Hsep a' b' Hin'). cbn in Hsep.
    apply not_elem_of_cons in Hsep as [? ?]. done. }
  apply elem_of_cons in Hin as [[= -> ->]|Hin].
  - destruct (Hsrc a0 b0) as [Hb0 Hb0l]; [by left|].
    apply data_copy_inv in Hstep as (ta & tb & Ha & Hb & Hsz & ->).
    exists ta, tb. repeat (split; [done|]). split.
    + rewrite Hrest by done. cbn. apply list_lookup_insert_eq. by eapply lookup_lt_Some.
    + rewrite Hrest by done. cbn. by rewrite list_lookup_insert_ne.
  - destruct (Hsrc a b) as [Hb Hbl]; [by right|].
    assert (Ha : a <> a0).
    { intros ->. apply Ha0. apply list_elem_of_fmap. by exists (a0, b). }
    destruct (IH w1 w' Hnd Hsep' H a b Hin) as (ta & tb & Hta & Htb & Hsz & Ha' & Hb').
    exists ta, tb. rewrite <- (Hhead a), <- (Hhead b) by done. done.
Qed.

Lemma set_grad_loop_effect l : forall w w',
  NoDup l.*1 ->
  (forall a b, (a, b) ∈ l -> b ∉ l.*1) ->
  for_each set_grad_body l w = (inr tt, w') ->
  forall a b,
    (a, b) ∈ l ->
    exists tb,
      tensors w !! b = Some tb /\ tensors w' !! b = Some tb
      /\ match grad tb with
         | None => tensors w' !! a = tensors w !! a
         | Some g =>
             exists ta gd,
               tensors w !! a = Some ta
               /\ gd = from_option id (TData (t_dtype (data ta)) (t_size (data ta))
                                             (uninitialized (t_size (data ta)))) (grad ta)
               /\ t_size gd = t_size g
               /\ tensors w' !! a
                  = Some (TensorObj (data ta) (Some (with_vals gd (t_vals g))) (requires_grad ta))
         end.
Proof.
  induction l as [|[a0 b0] l IH]; intros w w' Hnd Hsep H a b Hin.
  { by apply elem_of_nil in Hin. }
  cbn in Hnd. apply NoDup_cons in Hnd as [Ha0 Hnd].
  rewrite for_each_cons in H. apply bind_ok_inv in H as ([] & w1 & Hstep & H).
  pose proof (pair_loop_sub l a0 b0 Hsep) as Hsep'.
  assert (Hrest : forall p, p ∉ l.*1 -> tensors w' !! p = tensors w1 !! p).
  { intros p Hp.
    by eapply (touches_eq _ _ _ _ _ _ (pairs_touch_firsts set_grad_body l set_grad_pair_touches) H). }
  assert (Hhead : forall p, p <> a0 -> tensors w1 !! p = tensors w !! p).
  { intros p Hp. eapply (touches_eq _ _ _ _ _ _ (set_grad_pair_touches a0 b0) Hstep). congruence. }
  assert (Hsrc : forall a b, (a, b) ∈ (a0, b0) :: l -> b <> a0 /\ b ∉ l.*1).
  { intros a' b' Hin'. specialize (Hsep a' b' Hin'). cbn in Hsep.
    apply not_elem_of_cons in Hsep as [? ?]. done. }
  apply elem_of_cons in Hin as [[= -> ->]|Hin].
  - destruct (Hsrc a0 b0) as [Hb0 Hb0l]; [by left|].
    apply set_grad_pair_inv in Hstep as (tb & Hb & Hstep). exists tb.
    split; [done|]. split.
    { rewrite Hrest by done.
      destruct Hstep as [[_ ->]|(g & ta & gd & _ & _ & _ & _ & ->)]; [done|].
      cbn. by rewrite list_lookup_insert_ne. }
    destruct Hstep as [[-> ->]|(g & ta & gd & -> & Hta & Hgd & Hsz & ->)].
    + by rewrite Hrest.
    + exists ta, gd. repeat (split; [done|]). rewrite Hrest by done. cbn.
      apply list_lookup_insert_eq. by eapply lookup_lt_Some.
  - destruct (Hsrc a b) as [Hb Hbl]; [by right|].
    assert (Ha : a <> a0).
    { intros ->. apply Ha0. apply list_elem_of_fmap. by exists (a0, b). }
    destruct (IH w1 w' Hnd Hsep' H a b Hin) as (tb & Htb & Htb' & Hcase).
    exists tb. rewrite <- (Hhead b) by done. split; [done|]. split; [done|].
    destruct (grad tb); rewrite <- (Hhead a) by done; done.
Qed.

Lemma zip_sources_apart (dsts srcs : list nat) :
  (forall p, p ∈ srcs -> p ∉ dsts) ->
  forall a b, (a, b) ∈ zip dsts srcs -> b ∉ (zip dsts srcs).*1.
Proof.
  intros Hsep a b [_ Hb]%elem_of_zip Hin.
  apply list_elem_of_fmap in Hin as ([a' b'] & Heq & [Ha' _]%elem_of_zip).
  cbn in Heq. subst a'. by apply (Hsep b).
Qed.

Lemma elem_of_zip_lookup {A B} (l : list A) (k : list B) i a b :
  l !! i = Some a -> k !! i = Some b -> (a, b) ∈ zip l k.
Proof.
  intros Ha Hb. apply list_elem_of_lookup. exists i.
  apply lookup_zip_with_Some. eauto.
Qed.

(** With sizes that must agree, [copy_in_params] on its return. *)
Lemma copy_in_params_pairs fp16_net fp32_weight w w' :
  (forall p, p ∈ fp32_weight -> p ∉ dp_parameters fp16_net) ->
  copy_in_params fp16_net fp32_weight w = (inr tt, w') ->
  forall i net_param master,
    dp_parameters fp16_net !! i = Some net_param ->
    fp32_weight !! i = Some master ->
    exists t tm,
      tensors w !! net_param = Some t
      /\ tensors w !! master = Some tm
      /\ t_size (data t) = t_size (data tm)
      /\ tensors w' !! net_param
         = Some (TensorObj (TData (t_dtype (data t)) (t_size (data t)) (t_vals (data tm)))
                           (grad t) (requires_grad t))
      /\ tensors w' !! master = Some tm.
Proof.
  intros Hsep H i net_param master Hi Hj. rewrite copy_in_params_unfold in H.
  eapply (copy_loop_effect _ w w'); [| |done|by eapply elem_of_zip_lookup].
  - apply zip_fst_NoDup, parameters_NoDup.
  - by apply zip_sources_apart.
Qed.

(** X3. When no master parameter is a parameter of the model and
    [copy_in_params] returns, every aligned model parameter that has the
    size of its master parameter holds the master's values, in its own
    dtype, and has kept its size, gradient and [requires_grad]; the master
    parameters are exactly as they were. *)
Theorem copy_in_params_effect fp16_net fp32_weight w w' :
  (forall p, p ∈ fp32_weight -> p ∉ dp_parameters fp16_net) ->
  copy_in_params fp16_net fp32_weight w = (inr tt, w') ->
  forall i net_param master t tm,
    dp_parameters fp16_net !! i = Some net_param ->
    fp32_weight !! i = Some master ->
    tensors w !! net_param = Some t ->
    tensors w !! master = Some tm ->
    t_size (data tm) = t_size (data t) ->
    tensors w' !! net_param
    = Some (TensorObj (TData (t_dtype (data t)) (t_size (data t)) (t_vals (data tm)))
                      (grad t) (requires_grad t))
    /\ tensors w' !! master = Some tm.
Proof.
  intros Hsep H i net_param master t tm Hi Hj Ht Htm _.
  destruct (copy_in_params_pairs _ _ _ _ Hsep H i net_param master Hi Hj)
    as (t0 & tm0 & Ht0 & Htm0 & _ & Hnet & Hmaster).
  rewrite Ht in Ht0. rewrite Htm in Htm0.
  injection Ht0 as <-. injection Htm0 as <-. done.
Qed.

(** With sizes that must agree, [set_grad] on its return. *)
Lemma set_grad_pairs fp16_net fp32_weight w w' :
  NoDup fp32_weight ->
  (forall p, p ∈ dp_parameters fp16_net -> p ∉ fp32_weight) ->
  set_grad fp16_net fp32_weight w = (inr tt, w') ->
  forall i p32 p16,
    fp32_weight !! i = Some p32 ->
    dp_parameters fp16_net !! i = Some p16 ->
    exists t16,
      tensors w !! p16 = Some t16 /\ tensors w' !! p16 = Some t16
      /\ match grad t16 with
         | None => tensors w' !! p32 = tensors w !! p32
         | Some g16 =>
             exists t32 g32,
               tensors w !! p32 = Some t32
               /\ tensors w' !! p32 = Some (TensorObj (data t32) (Some g32) (requires_grad t32))
               /\ t_vals g32 = t_vals g16
               /\ t_size g32 = t_size g16
               /\ match grad t32 with
                  | Some old => t_dtype g32 = t_dtype old /\ t_size g32 = t_size old
                  | None => t_dtype g32 = t_dtype (data t32) /\ t_size g32 = t_size (data t32)
                  end
         end.
Proof.
  intros Hnd Hsep H i p32 p16 Hi Hj. rewrite set_grad_unfold in H.
  destruct (set_grad_loop_effect _ w w' (zip_fst_NoDup _ _ Hnd)
              (zip_sources_apart _ _ Hsep) H p32 p16 (elem_of_zip_lookup _ _ _ _ _ Hi Hj))
    as (t16 & H16 & H16' & Hcase).
  exists t16. split; [done|]. split; [done|].
  destruct (grad t16) as [g16|]; [|done].
  destruct Hcase as (t32 & gd & H32 & Hgd & Hsz & H32').
  exists t32, (with_vals gd (t_vals g16)). split; [done|]. split; [done|].
  split; [done|]. split; [done|]. cbn. rewrite Hgd.
  destruct (grad t32); cbn; [done|]. split; [done|]. by rewrite Hgd in Hsz.
Qed.

(** X4. When the master parameters are distinct objects, none of them a
    parameter of the model, and [set_grad] returns: the model's parameters
    are as they were; a master parameter whose model parameter has no
    gradient is as it was; a master parameter whose model parameter has a
    gradient of the size of the buffer it goes to holds that gradient's
    values, in the gradient buffer it already had or, when it had none, in
    a new buffer of the dtype and size of its own data. *)
Theorem set_grad_effect fp16_net fp32_weight w w' :
  NoDup fp32_weight ->
  (forall p, p ∈ dp_parameters fp16_net -> p ∉ fp32_weight) ->
  set_grad fp16_net fp32_weight w = (inr tt, w') ->
  forall i p32 p16 t32 t16,
    fp32_weight !! i = Some p32 ->
    dp_parameters fp16_net !! i = Some p16 ->
    tensors w !! p32 = Some t32 ->
    tensors w !! p16 = Some t16 ->
    tensors w' !! p16 = Some t16
    /\ match grad t16 with
       | None => tensors w' !! p32 = Some t32
       | Some g16 =>
           let buffer := match grad t32 with
                         | Some old => old
                         | None => data t32
                         end in
           t_size g16 = t_size buffer ->
           tensors w' !! p32
           = Some (TensorObj (data t32)
                             (Some (TData (t_dtype buffer) (t_size buffer) (t_vals g16)))
                             (requires_grad t32))
       end.
Proof.
  intros Hnd Hsep H i p32 p16 t32 t16 Hi Hj H32 H16.
  destruct (set_grad_pairs _ _ _ _ Hnd Hsep H i p32 p16 Hi Hj) as (t & Ht & Ht' & Hcase).
  rewrite H16 in Ht. injection Ht as <-. split; [done|].
  destruct (grad t16) as [g16|]; [|by rewrite Hcase].
  destruct Hcase as (t & g32 & Ht & H32' & Hvals & _ & Hbuf).
  rewrite H32 in Ht. injection Ht as <-. intros buffer _. rewrite H32'.
  do 2 f_equal. destruct g32 as [ty sz vs]. cbn in Hvals, Hbuf. subst vs. unfold buffer.
  destruct (grad t32) as [old|]; destruct Hbuf as [-> ->]; done.
Qed.

Lemma expands_to_refl l : expands_to l l = true.
Proof.
  induction l as [|x l IH]; [done|]. cbn. rewrite IH.
  by rewrite bool_decide_eq_true_2.
Qed.

Lemma not_broadcastable_differ src dst : broadcastable src dst = false -> dst <> src.
Proof. intros H ->. unfold broadcastable in H. by rewrite expands_to_refl in H. Qed.


(** *** What the two copy loops never change *)

Lemma view_insert {X} (view : tensor -> X) (h : list tensor) p t t' :
  h !! p = Some t -> view t' = view t -> map view (<[p := t']> h) = map view h.
Proof.
  intros Hp Hv. rewrite list_fmap_insert. apply list_insert_id.
  rewrite list_lookup_fmap, Hp. cbn. by rewrite Hv.
Qed.

Lemma keeps_deref {A X} (view : tensor -> X) p (k : tensor -> M A) w :
  (forall t, tensors w !! p = Some t ->
             map view (tensors (k t w).2) = map view (tensors w)) ->
  map view (tensors (bind (deref p) k w).2) = map view (tensors w).
Proof.
  intros Hk. unfold bind, deref. destruct (tensors w !! p) as [t|] eqn:Hp; [|done].
  by apply Hk.
Qed.

Section Views.
Context {X : Type} (view : tensor -> X).

(** A view that does not look at the gradient. *)
Hypothesis view_no_grad :
  forall t g, view (TensorObj (data t) g (requires_grad t)) = view t.

Lemma new_grad_keeps p : preserves (fun w => map view (tensors w)) (new_grad p).
Proof.
  intros w. unfold new_grad. apply keeps_deref. intros t Hp. cbn.
  eapply view_insert; [done|apply view_no_grad].
Qed.

Lemma grad_copy_keeps dst src :
  preserves (fun w => map view (tensors w)) (grad_copy_ dst src).
Proof.
  intros w. unfold grad_copy_. apply keeps_deref. intros td Hd.
  apply keeps_deref. intros ts Hs.
  destruct (grad td) as [gd|], (grad ts) as [gs|]; try done.
  unfold bind, emit. cbn. destruct (tdata_copy_ gd gs); [done|]. cbn.
  eapply view_insert; [done|apply view_no_grad].
Qed.

Lemma set_grad_pair_keeps a b :
  preserves (fun w => map view (tensors w)) (set_grad_pair a b).
Proof.
  unfold set_grad_pair. apply preserves_bind; [apply deref_preserves|]. intros t16.
  destruct (grad t16); [|done].
  apply preserves_bind; [apply deref_preserves|]. intros t32.
  apply preserves_bind; [|intros _; apply grad_copy_keeps].
  destruct (grad t32); [done|apply new_grad_keeps].
Qed.
End Views.

Section DataViews.
Context {X : Type} (view : tensor -> X).

(** A view that does not look at the values of the data. *)
Hypothesis view_no_vals :
  forall t vs, view (TensorObj (with_vals (data t) vs) (grad t) (requires_grad t)) = view t.

Lemma data_copy_keeps dst src :
  preserves (fun w => map view (tensors w)) (data_copy_ dst src).
Proof.
  intros w. unfold data_copy_. apply keeps_deref. intros td Hd.
  apply keeps_deref. intros ts Hs.
  unfold bind, emit. cbn. unfold tdata_copy_.
  destruct (decide (t_size (data td) = t_size (data ts))); [|done]. cbn.
  eapply view_insert; [done|apply view_no_vals].
Qed.
End DataViews.

Lemma set_grad_pair_dicts a b : preserves dicts (set_grad_pair a b).
Proof. unfold set_grad_pair, new_grad, grad_copy_. pres. Qed.

Lemma data_copy_dicts a b : preserves dicts (data_copy_ a b).
Proof. unfold data_copy_. pres. Qed.

(** X6. Whatever their outcome, [set_grad] changes no tensor's data and no
    [requires_grad] flag (it writes gradients only), and [copy_in_params]
    changes no gradient, no [requires_grad] flag and no dtype or size (it
    writes values only); neither allocates or frees a tensor object, and
    neither touches a dictionary. *)
Theorem copy_loops_leave_alone fp16_net fp32_weight w :
  (let w' := (set_grad fp16_net fp32_weight w).2 in
   map data (tensors w') = map data (tensors w)
   /\ map requires_grad (tensors w') = map requires_grad (tensors w)
   /\ length (tensors w') = length (tensors w)
   /\ dicts w' = dicts w)
  /\
  (let w' := (copy_in_params fp16_net fp32_weight w).2 in
   map grad (tensors w') = map grad (tensors w)
   /\ map requires_grad (tensors w') = map requires_grad (tensors w)
   /\ map (fun t => (t_dtype (data t), t_size (data t))) (tensors w')
      = map (fun t => (t_dtype (data t), t_size (data t))) (tensors w)
   /\ length (tensors w') = length (tensors w)
   /\ dicts w' = dicts w).
Proof.
  split.
  - assert (Hdata : map data (tensors (set_grad fp16_net fp32_weight w).2)
                    = map data (tensors w)).
    { apply (preserves_for_each (fun w => map data (tensors w))). intros [a b].
      by apply (set_grad_pair_keeps data). }
    cbn zeta. split; [done|]. split; [|split].
    + apply (preserves_for_each (fun w => map requires_grad (tensors w))). intros [a b].
      by apply (set_grad_pair_keeps requires_grad).
    + apply (f_equal length) in Hdata. by rewrite !length_map in Hdata.
    + apply (preserves_for_each dicts). intros [a b]. apply set_grad_pair_dicts.
  - assert (Hgrad : map grad (tensors (copy_in_params fp16_net fp32_weight w).2)
                    = map grad (tensors w)).
    { apply (preserves_for_each (fun w => map grad (tensors w))). intros [a b].
      by apply (data_copy_keeps grad). }
    cbn zeta. split; [done|]. split; [|split; [|split]].
    + apply (preserves_for_each (fun w => map requires_grad (tensors w))). intros [a b].
      by apply (data_copy_keeps requires_grad).
    + apply (preserves_for_each
               (fun w => map (fun t => (t_dtype (data t), t_size (data t))) (tensors w))).
      intros [a b].
      by apply (data_copy_keeps (fun t => (t_dtype (data t), t_size (data t)))).
    + apply (f_equal length) in Hgrad. by rewrite !length_map in Hgrad.
    + apply (preserves_for_each dicts). intros [a b]. apply data_copy_dicts.
Qed.

(** *** Early exits of [after_train_iter] and [before_run] *)

Lemma zero_grad_param_eq p w :
  p < length (tensors w) ->
  zero_grad_param p w
  = (inr tt, set_tensors (update_at (fun _ : unit => zero_t) (tensors w) (p, tt)) w).
Proof.
  intros Hp. apply lookup_lt_is_Some in Hp as [t Ht].
  unfold zero_grad_param. rewrite (bind_ok _ _ _ _ _ (deref_ok _ _ _ Ht)).
  unfold update_at. cbn [fst snd]. rewrite Ht. unfold zero_t.
  destruct (grad t) as [g|] eqn:Hg; cbn; [done|].
  unfold ret, set_tensors. f_equal. destruct w as [h d l]. cbn in *. f_equal.
  symmetry. apply list_insert_id. rewrite Ht. destruct t; cbn in *; by subst.
Qed.

Lemma zero_loop_eq ps w :
  in_store (tensors w) ps = true ->
  for_each zero_grad_param ps w
  = (inr tt, set_tensors (update_all (fun _ : unit => zero_t) (map (fun p => (p, tt)) ps)
                                      (tensors w)) w).
Proof.
  revert w. induction ps as [|p ps IH]; intros w Hps.
  - by destruct w.
  - apply in_store_cons in Hps as [Hp Hps].
    rewrite for_each_cons, (bind_ok _ _ _ _ _ (zero_grad_param_eq p w Hp)).
    rewrite IH; [done|]. cbn. by rewrite (in_store_length (tensors w)) by apply length_update_at.
Qed.

Lemma length_update_all {B} (f : B -> tensor -> tensor) l h :
  length (update_all f l h) = length h.
Proof.
  revert h. induction l as [|pb l IH]; intros h; [done|].
  cbn. unfold update_all in IH. by rewrite IH, length_update_at.
Qed.

(** X7. The early exits of [after_train_iter].  An optimizer without
    parameter groups makes it raise IndexError before anything is done.
    Otherwise the gradients of the model and of the optimizer are zeroed
    first; outputs without a ['loss'] then raise KeyError, and a loss that
    is not attached to a graph raises the autograd RuntimeError once it has
    been scaled.  In both cases the gradients stay zeroed and no gradient
    was copied, unscaled or stepped on. *)
Theorem after_train_iter_early_exits self runner w :
  (param_groups (r_optimizer runner) = [] ->
   after_train_iter self runner w = (inl IndexError, w))
  /\
  (forall fp32_weight rest,
     param_groups (r_optimizer runner) = fp32_weight :: rest ->
     in_store (tensors w) (dp_parameters (r_model runner)
                           ++ concat (param_groups (r_optimizer runner))) = true ->
     let zero_all ps := update_all (fun _ : unit => zero_t) (map (fun p => (p, tt)) ps) in
     let zeroed := zero_all (concat (param_groups (r_optimizer runner)))
                            (zero_all (dp_parameters (r_model runner)) (tensors w)) in
     (r_outputs runner !! "loss" = None ->
      after_train_iter self runner w
      = (inl (KeyError "loss"),
         World zeroed (dicts w) (log w ++ [EvModelZeroGrad; EvOptimizerZeroGrad])))
     /\
     (forall value,
        r_outputs runner !! "loss" = Some (Loss value None) ->
        after_train_iter self runner w
        = (inl (RuntimeError
                  "element 0 of tensors does not require grad and does not have a grad_fn"),
           World zeroed (dicts w)
                 (log w ++ [EvModelZeroGrad; EvOptimizerZeroGrad;
                            EvMul (loss_scale self); EvBackward])))
     /\
     (forall p t,
        p ∈ dp_parameters (r_model runner) ++ fp32_weight ->
        tensors w !! p = Some t ->
        zeroed !! p = Some (zero_t t))).
Proof.
  split.
  { intros Hg. unfold after_train_iter. by rewrite Hg. }
  intros fp32_weight rest Hg Hstore zero_all zeroed.
  apply in_store_app in Hstore as [H16 Hgroups].
  assert (Hz1 : module_zero_grad (r_model runner) w
                = (inr tt, World (zero_all (dp_parameters (r_model runner)) (tensors w))
                                 (dicts w) (log w ++ [EvModelZeroGrad]))).
  { unfold module_zero_grad, bind, emit. by rewrite zero_loop_eq. }
  assert (Hz2 : optimizer_zero_grad (r_optimizer runner)
                  (World (zero_all (dp_parameters (r_model runner)) (tensors w))
                         (dicts w) (log w ++ [EvModelZeroGrad]))
                = (inr tt, World zeroed (dicts w)
                                 (log w ++ [EvModelZeroGrad; EvOptimizerZeroGrad]))).
  { unfold optimizer_zero_grad, bind, emit. cbn [fst snd add_log tensors dicts log].
    rewrite for_each_concat, zero_loop_eq.
    - unfold set_tensors. cbn. by rewrite <- app_assoc.
    - cbn. unfold zero_all. by rewrite (in_store_length (tensors w)) by apply length_update_all. }
  split; [|split].
  - intros Hloss. unfold after_train_iter. rewrite Hg, Hloss.
    unfold bind at 1. cbn [ret].
    rewrite (bind_ok _ _ _ _ _ Hz1), (bind_ok _ _ _ _ _ Hz2). done.
  - intros value Hloss. unfold after_train_iter. rewrite Hg, Hloss.
    unfold bind at 1. cbn [ret].
    rewrite (bind_ok _ _ _ _ _ Hz1), (bind_ok _ _ _ _ _ Hz2).
    unfold bind at 1. cbn [ret]. rewrite (bind_ok _ _ _ _ _ (loss_mul_eq _ _ _)).
    unfold backward, bind, emit, raise, add_log. cbn. by rewrite <- !app_assoc.
  - intros p t Hp Ht. unfold zeroed, zero_all.
    rewrite !lookup_update_all_idemp by apply zero_t_idemp. rewrite Ht.
    apply elem_of_app in Hp as [Hp|Hp].
    + rewrite (decide_True (P := p ∈ dp_parameters (r_model runner))) by done.
      destruct (decide _); cbn; by rewrite ?zero_t_idemp.
    + rewrite (decide_True (P := p ∈ concat (param_groups (r_optimizer runner)))).
      2:{ rewrite Hg. cbn. apply elem_of_app. by left. }
      destruct (decide _); cbn; by rewrite ?zero_t_idemp.
Qed.

Lemma build_optimizer_tensors self runner param_copy model' :
  preserves tensors (build_optimizer self runner param_copy model').
Proof.
  intros w. unfold build_optimizer, bind, dict_copy.
  destruct (dicts w !! ph_optimizer self) as [cfg|]; [|done].
  unfold dict_pop. cbn [dicts set_dicts].
  destruct ((dicts w ++ [cfg]) !! length (dicts w)) as [m|]; [|done].
  destruct (m !! "type") as [v|]; [|done].
  destruct v as [s| | |]; cbn; try done.
  destruct (torch_optim_has s); cbn; [|done].
  unfold dict_items. cbn.
  destruct (_ !! length (dicts w)); [|done].
  unfold optimizer_new, bind, emit. cbn.
  by destruct (optimizer_init_check _ _ _).
Qed.

(** X8. [before_run] is not atomic.  On a model whose parameters are in
    the store it can only fail while the optimizer is built: the config has
    no ['type'] (KeyError), its ['type'] is not a string (TypeError), names
    nothing in [torch.optim] (AttributeError), or the constructor refuses
    its arguments.  By then the clones are allocated and the model is
    converted to half precision; the hook's config is still as it was. *)
Theorem before_run_fails_after_conversion self runner w cfg e w' :
  let model := module_of (r_model runner) in
  let param_copy := seq (length (tensors w)) (length (parameters model)) in
  in_store (tensors w) (all_params model) = true ->
  dicts w !! ph_optimizer self = Some cfg ->
  before_run cast self runner w = (inl e, w') ->
  tensors w' = prepared_store model (tensors w)
  /\ dicts w' !! ph_optimizer self = Some cfg
  /\ ((cfg !! "type" = None /\ e = KeyError "type")
      \/ (exists v, cfg !! "type" = Some v /\ (forall s, v <> PStr s)
                    /\ e = TypeError "getattr(): attribute name must be string")
      \/ (exists s, cfg !! "type" = Some (PStr s) /\ torch_optim_has s = false
                    /\ e = AttributeError s)
      \/ (exists s, cfg !! "type" = Some (PStr s) /\ torch_optim_has s = true
                    /\ optimizer_init_check s param_copy (delete "type" cfg) = Some e)).
Proof.
  intros model param_copy Hm Hcfg H. rewrite before_run_prepared in H by done.
  fold model param_copy in H.
  split; [|split].
  - by rewrite (preserves_eq tensors _ _ _ _ (build_optimizer_tensors _ _ _ _) H).
  - eapply build_optimizer_dicts; [|exact H]. done.
  - unfold build_optimizer, bind, dict_copy in H. cbn [dicts] in H. rewrite Hcfg in H.
    unfold dict_pop in H. cbn [dicts set_dicts] in H.
    rewrite lookup_app_r, Nat.sub_diag in H by done. cbn [lookup list_lookup] in H.
    destruct (cfg !! "type") as [v|] eqn:Hty; [|injection H as <- _; by left].
    right. destruct v as [s| | |].
    2,3,4: (cbv beta iota delta [getattr_optim raise] in H; injection H as <- _; left;
            eexists; split; [done|]; split; [by intros ?|done]).
    right. cbv beta iota delta [getattr_optim] in H.
    destruct (torch_optim_has s) eqn:Hhas; cbv beta iota delta [ret raise] in H.
    2:{ injection H as <- _. left. by exists s. }
    right. exists s. split; [done|]. split; [done|].
    unfold set_dicts in H. cbn [dicts tensors log] in H.
    rewrite insert_app_r_alt, Nat.sub_diag in H by done. cbn [insert list_insert] in H.
    unfold dict_items in H. cbn [dicts] in H.
    rewrite lookup_app_r, Nat.sub_diag in H by done. cbn [lookup list_lookup] in H.
    unfold optimizer_new, bind, emit in H. cbn in H.
    destruct (optimizer_init_check s param_copy (delete "type" cfg)); [|done].
    by injection H as <- _.
Qed.

(** *** Parameters the loss does not depend on *)

(** The stores [gradients_for_step] goes through, without all-reduce and
    clipping. *)
Lemma gradients_for_step_stores self runner fp32_weight rest value gs w fp32' ws :
  distributed self = false ->
  grad_clip self = None ->
  param_groups (r_optimizer runner) = fp32_weight :: rest ->
  r_outputs runner !! "loss" = Some (Loss value (Some gs)) ->
  gradients_for_step self runner w = (inr fp32', ws) ->
  let key := fun p : nat => (p, tt) in
  let fp16 := dp_parameters (r_model runner) in
  let scaled := map (fun '(p, g) => (p, map (fun x => (x * loss_scale self)%Qc) g)) gs in
  exists w4 w5,
    Forall (fun p => p < length (tensors w)) (fp16 ++ fp32_weight)
    /\ tensors w4
       = update_all accumulate_t scaled
           (update_all (fun _ => zero_t) (map key (concat (param_groups (r_optimizer runner))))
              (update_all (fun _ => zero_t) (map key fp16) (tensors w)))
    /\ for_each set_grad_body (zip fp32_weight fp16) w4 = (inr tt, w5)
    /\ tensors ws = update_all (fun _ => unscale_t (loss_scale self)) (map key fp32_weight)
                               (tensors w5).
Proof.
  intros Hd Hc Hgroups Hloss Hrun key fp16 scaled.
  unfold gradients_for_step in Hrun. rewrite Hgroups, Hloss, Hd, Hc in Hrun.
  apply bind_ok_inv in Hrun as (? & ? & [= <- <-] & Hrun).
  apply bind_ok_inv in Hrun as ([] & w1 & Hz1 & Hrun).
  apply bind_ok_inv in Hrun as ([] & w2 & Hz2 & Hrun).
  apply bind_ok_inv in Hrun as (? & ? & [= <- <-] & Hrun).
  apply bind_ok_inv in Hrun as (sl & w3 & Hmul & Hrun).
  rewrite loss_mul_eq in Hmul. injection Hmul as <- <-.
  apply bind_ok_inv in Hrun as ([] & w4 & Hback & Hrun).
  apply bind_ok_inv in Hrun as ([] & w5 & Hset & Hrun).
  apply bind_ok_inv in Hrun as ([] & w6 & [= <-] & Hrun).
  apply bind_ok_inv in Hrun as ([] & w7 & Hdiv & Hrun).
  apply bind_ok_inv in Hrun as ([] & w8 & [= <-] & Hrun).
  injection Hrun as <- <-.
  unfold module_zero_grad in Hz1. apply bind_ok_inv in Hz1 as ([] & ? & [= <-] & Hz1).
  apply (loop_update_all zero_grad_param key (fun _ => zero_t)) in Hz1
    as [Hvalid1 Hz1]; [|intros *; apply zero_grad_param_inv].
  cbn [tensors add_log] in Hvalid1, Hz1.
  unfold optimizer_zero_grad in Hz2. apply bind_ok_inv in Hz2 as ([] & ? & [= <-] & Hz2).
  rewrite for_each_concat in Hz2.
  apply (loop_update_all zero_grad_param key (fun _ => zero_t)) in Hz2
    as [Hvalid2 Hz2]; [|intros *; apply zero_grad_param_inv].
  cbn [tensors add_log] in Hvalid2, Hz2.
  unfold backward in Hback. apply bind_ok_inv in Hback as ([] & ? & [= <-] & Hback).
  cbn [loss_grad_fn fmap option_fmap option_map] in Hback.
  apply (loop_update_all _ (fun x : nat * list Qc => x) accumulate_t) in Hback
    as [_ Hback]; [|intros [p g] *; apply accumulate_grad_inv].
  cbn [tensors add_log] in Hback. rewrite map_id in Hback.
  rewrite set_grad_unfold in Hset.
  apply (loop_update_all (unscale_param (loss_scale self)) key
           (fun _ => unscale_t (loss_scale self))) in Hdiv
    as [_ Hdiv]; [|intros *; apply unscale_param_tensors].
  exists w4, w5. split; [|split; [|split; [done|done]]].
  - apply Forall_app. split; [done|].
    rewrite Hz1, length_update_all, Hgroups in Hvalid2. cbn [concat] in Hvalid2.
    by apply Forall_app in Hvalid2 as [? _].
  - by rewrite Hback, Hz2, Hz1.
Qed.

Lemma Forall_zero_div (s : Qc) (vs : list Qc) :
  Forall (fun x => x = 0%Qc) vs -> Forall (fun x => x = 0%Qc) (map (fun x => (x / s)%Qc) vs).
Proof.
  intros H. apply Forall_fmap. eapply Forall_impl; [done|].
  intros x ->. cbn. unfold Qcdiv. apply Qcmult_0_l.
Qed.

Lemma Forall_zero_const (vs : list Qc) :
  Forall (fun x => x = 0%Qc) (map (fun _ : Qc => 0%Qc) vs).
Proof. apply Forall_fmap. by apply Forall_true. Qed.

(** X9. Without all-reduce and clipping, a model parameter that the loss
    does not depend on contributes nothing: the master parameter aligned
    with it reaches [optimizer.step()] with no gradient at all, or with a
    gradient whose entries are all zero (what the zeroing at the start of
    the iteration left, copied over and divided by a non-zero
    [loss_scale]). *)
Theorem unused_parameter_gets_zero self runner fp32_weight rest value gs w fp32' ws :
  distributed self = false ->
  grad_clip self = None ->
  loss_scale self <> 0%Qc ->
  param_groups (r_optimizer runner) = fp32_weight :: rest ->
  r_outputs runner !! "loss" = Some (Loss value (Some gs)) ->
  master_separate fp32_weight (dp_parameters (r_model runner)) gs.*1 = true ->
  gradients_for_step self runner w = (inr fp32', ws) ->
  forall i p32 p16,
    fp32_weight !! i = Some p32 ->
    dp_parameters (r_model runner) !! i = Some p16 ->
    p16 ∉ gs.*1 ->
    exists t,
      tensors ws !! p32 = Some t
      /\ match grad t with
         | None => True
         | Some g => Forall (fun x => x = 0%Qc) (t_vals g)
         end.
Proof.
  intros Hd Hc _ Hgroups Hloss Hsep Hrun i p32 p16 Hi32 Hi16 Hunused.
  destruct (gradients_for_step_stores _ _ _ _ _ _ _ _ _ Hd Hc Hgroups Hloss Hrun)
    as (w4 & w5 & Hvalid & H4 & Hset & Hws).
  set (s := loss_scale self) in *. set (fp16 := dp_parameters (r_model runner)) in *.
  apply master_separate_spec in Hsep as (Hnd32 & Hdisj & Hndl & Hleaves).
  assert (Hp16 : p16 ∈ fp16) by by eapply list_elem_of_lookup_2.
  assert (Hp32 : p32 ∈ fp32_weight) by by eapply list_elem_of_lookup_2.
  rewrite Forall_forall in Hvalid.
  destruct (lookup_lt_is_Some_2 (tensors w) p16) as [t16 H16].
  { apply Hvalid, elem_of_app. by left. }
  destruct (lookup_lt_is_Some_2 (tensors w) p32) as [t32 H32].
  { apply Hvalid, elem_of_app. by right. }
  assert (Hkeys : (map (fun '(p, g) => (p : nat, map (fun x => (x * s)%Qc) g)) gs).*1 = gs.*1).
  { rewrite <- list_fmap_compose. apply list_fmap_ext. by intros ? []. }
  (* both objects are zeroed, and backpropagation passes them by *)
  assert (Hzero : forall p t, p ∈ fp16 ++ fp32_weight -> p ∉ gs.*1 ->
                              tensors w !! p = Some t -> tensors w4 !! p = Some (zero_t t)).
  { intros p t Hp Hnot Ht. rewrite H4.
    rewrite lookup_update_all_notin by by rewrite Hkeys.
    rewrite !lookup_update_all_idemp by apply zero_t_idemp. rewrite Ht.
    apply elem_of_app in Hp as [Hp|Hp].
    - rewrite (decide_True (P := p ∈ fp16)) by done.
      destruct (decide _); cbn; by rewrite ?zero_t_idemp.
    - rewrite (decide_True (P := p ∈ concat (param_groups (r_optimizer runner)))).
      2:{ rewrite Hgroups. cbn. apply elem_of_app. by left. }
      destruct (decide _); cbn; by rewrite ?zero_t_idemp. }
  assert (H16' : tensors w4 !! p16 = Some (zero_t t16)).
  { apply Hzero; [apply elem_of_app; by left|done|done]. }
  assert (H32' : tensors w4 !! p32 = Some (zero_t t32)).
  { apply Hzero; [apply elem_of_app; by right| |done].
    intros Hin. by apply (Hdisj p32), Hleaves. }
  (* the aligned copy, then the division *)
  assert (Hsep' : forall p, p ∈ fp16 -> p ∉ fp32_weight).
  { intros p Hp Hp'. by apply (Hdisj p). }
  destruct (set_grad_loop_effect _ w4 w5 (zip_fst_NoDup _ fp16 Hnd32)
              (zip_sources_apart _ _ Hsep') Hset p32 p16
              (elem_of_zip_lookup _ _ _ _ _ Hi32 Hi16))
    as (tb & Htb & _ & Hcase).
  assert (tb = zero_t t16) as -> by congruence.
  assert (H5 : exists t5, tensors w5 !! p32 = Some t5
                          /\ match grad t5 with
                             | None => True
                             | Some g => Forall (fun x => x = 0%Qc) (t_vals g)
                             end).
  { destruct (grad (zero_t t16)) as [g16|] eqn:Hg16.
    - destruct Hcase as (ta & gd & Hta & _ & _ & Hta').
      eexists. split; [done|]. cbn.
      unfold zero_t in Hg16. cbn in Hg16.
      destruct (grad t16) as [g|]; [|done]. injection Hg16 as <-. cbn.
      apply Forall_zero_const.
    - eexists. split; [by rewrite Hcase|]. unfold zero_t. cbn.
      destruct (grad t32) as [g|]; cbn; [apply Forall_zero_const|done]. }
  destruct H5 as (t5 & H5 & Hg5).
  exists (unscale_t s t5). split.
  - rewrite Hws, (lookup_update_all_in _ _ _ p32 tt).
    + by rewrite H5.
    + rewrite <- list_fmap_compose. by rewrite list_fmap_id.
    + apply list_elem_of_fmap. by exists p32.
  - unfold unscale_t. cbn. destruct (grad t5) as [g|]; cbn; [|done].
    by apply Forall_zero_div.
Qed.

(** *** Models without normalization, and [before_run] run again *)

(** X10. On a model without batch-norm or group-norm modules,
    [patch_norm_fp32] is the identity: it returns the module tree as it
    is, calls [float()] on nothing, and leaves the world untouched, whatever
    the precision of the model's parameters and whether or not they are in
    the store. *)
Theorem patch_norm_fp32_without_norm m :
  Forall (fun n => is_norm (m_kind n) = false) (modules m) ->
  forall w, patch_norm_fp32 cast m w = (inr m, w).
Proof.
  induction m as [kind ps flag fwd children IH] using nn_module_ind'.
  cbn [modules m_children m_kind].
  intros [Hkind Hrest]%Forall_cons w. cbn in Hkind.
  cbn [patch_norm_fp32]. rewrite Hkind.
  fold (map_m (patch_norm_fp32 cast) children).
  assert (Hcs : forall w, map_m (patch_norm_fp32 cast) children w = (inr children, w)).
  { clear w. induction IH as [|c cs Hc _ IHcs]; intros w; [done|].
    cbn in Hrest. apply Forall_app in Hrest as [Hc' Hcs'].
    cbn [map_m]. fold (map_m (patch_norm_fp32 cast) cs).
    unfold bind at 1. rewrite (Hc Hc' w).
    unfold bind at 1. rewrite (IHcs Hcs' w). done. }
  unfold bind at 1. unfold ret at 1.
  unfold bind at 1. rewrite (Hcs w). done.
Qed.

(** X11. [before_run] takes the master copy from the model as it finds it.
    Run again on the runner and store it left (a hook registered twice),
    it clones the converted parameters: the second master copy is in half
    precision for every parameter outside the normalization modules, and
    in full precision only for the parameters under them, whatever the
    precision the model started with. *)
Theorem before_run_again self runner w runner1 w1 runner2 w2 :
  let model := module_of (r_model runner) in
  in_store (tensors w) (all_params model) = true ->
  before_run cast self runner w = (inr runner1, w1) ->
  before_run cast self runner1 w1 = (inr runner2, w2) ->
  exists param_copy2,
    param_groups (r_optimizer runner2) = [param_copy2]
    /\ length param_copy2 = length (parameters model)
    /\ forall i p,
         parameters model !! i = Some p ->
         exists c t,
           param_copy2 !! i = Some c
           /\ tensors w2 !! c = Some t
           /\ t_dtype (data t) = if decide (p ∈ norm_params model) then Float else Half.
Proof.
  intros model Hm H1 H2.
  apply before_run_inv in H1 as (cfg & cls & _ & _ & _ & _ & -> & ->); [|done].
  fold model in H2 |- *.
  set (model1 := set_fp16_enabled (patched cast model)) in *.
  set (h1 := prepared_store model (tensors w)) in *.
  assert (Hall : all_params model1 = all_params model) by apply all_params_converted.
  assert (Hpar : parameters model1 = parameters model) by apply parameters_converted.
  assert (Hm1 : in_store h1 (all_params model1) = true).
  { rewrite Hall. unfold h1, prepared_store.
    rewrite (in_store_length (tensors w ++ master_copy (tensors w) (parameters model)))
      by by rewrite !length_cast_all.
    by apply in_store_mono. }
  apply before_run_inv in H2 as (cfg2 & cls2 & _ & _ & _ & _ & -> & ->); [|done].
  cbn [r_model module_of r_optimizer param_groups tensors]. fold model1 h1.
  rewrite Hpar. eexists. split; [done|]. split; [by rewrite length_seq|].
  intros i p Hi.
  assert (Hpm : p ∈ all_params model).
  { apply elem_of_parameters. by eapply list_elem_of_lookup_2. }
  assert (Hp : p < length (tensors w)).
  { apply in_store_spec in Hm. rewrite Forall_forall in Hm. by apply Hm. }
  exists (length h1 + i). eexists.
  split; [apply lookup_seq; split; [done|by eapply lookup_lt_Some]|].
  split.
  - apply prepared_clone_lookup; [done|by rewrite Hpar].
  - cbn [data]. unfold h1 at 1.
    assert (Hlook : prepared_store model (tensors w) !! p
                    = Some (tensor_cast (if decide (p ∈ norm_params model) then Float else Half)
                                        (tensors w !!! p)))
      by by apply prepared_param_lookup.
    rewrite (list_lookup_total_correct _ _ _ Hlook).
    by destruct (decide (p ∈ norm_params model)).
Qed.


End Proofs.

(** ** The hooks at work on the reference instantiation *)

Lemma run_pair {A} (m : M A) w : m w = ((m w).1, (m w).2).
Proof. by destruct (m w). Qed.

Lemma run_returns {A} (m : M A) w a : (m w).1 = inr a -> m w = (inr a, (m w).2).
Proof. destruct (m w) as [r w']. cbn. by intros ->. Qed.

Lemma run_raises {A} (m : M A) w e : (m w).1 = inl e -> m w = (inl e, (m w).2).
Proof. destruct (m w) as [r w']. cbn. by intros ->. Qed.

Lemma prepared0_returns :
  before_run cast_tensor_type prepare_hook0 runner0 world0 = (inr runner1, world1).
Proof.
  rewrite (run_pair (before_run _ _ _) world0). fold prepared0. unfold world1, runner1.
  assert (H : exists r, prepared0.1 = inr r).
  { destruct (prepared0.1) eqn:E; [|by eexists]. vm_compute in E. discriminate. }
  destruct H as [r ->]. done.
Defined.

Lemma runner1_groups : param_groups (r_optimizer runner1) = [[4; 5; 6; 7]].
Proof. vm_compute. reflexivity. Defined.

Lemma runner1_parameters : dp_parameters (r_model runner1) = [0; 1; 2; 3].
Proof. vm_compute. reflexivity. Defined.


Lemma before_run_master_copy_witness :
  exists param_copy,
    param_copy = [4; 5; 6; 7]
    /\ (forall c, c ∈ param_copy -> c ∉ all_params net0)
    /\ module_of (r_model runner1) = set_fp16_enabled (patched cast_tensor_type net0).
Proof.
  destruct (@before_run_master_copy single_worker cast_tensor_type prepare_hook0 runner0 world0 runner1 world1
              ltac:(vm_compute; reflexivity) prepared0_returns)
    as (pc & cfg & cls & Hpc & _ & Hfresh & Hmodel & _).
  exists pc. split; [exact Hpc|]. split; [exact Hfresh|exact Hmodel].
Defined.

Lemma loss_scale_nonzero : loss_scale plain_hook <> 0%Qc.
Proof. intros H. apply (f_equal this) in H. vm_compute in H. discriminate. Defined.



Lemma patch_norm_fp32_spec_witness :
  exists m' w',
    patch_norm_fp32 cast_tensor_type net0 world0 = (inr m', w')
    /\ Forall2 (patched_from cast_tensor_type) (modules net0) (modules m')
    /\ log w' = log world0 ++ [EvFloat [1; 2]].
Proof.
  destruct (@patch_norm_fp32_spec single_worker cast_tensor_type net0 world0
              ltac:(vm_compute; reflexivity))
    as (m' & w' & Hrun & Hmods & Hlog & _).
  exists m', w'. split; [exact Hrun|]. split; [exact Hmods|exact Hlog].
Defined.

(** A module that is not a normalization module, nested in a batch norm:
    [patch_norm_fp32] casts its parameter to full precision. *)
Lemma nested_module_is_cast :
  let r := patch_norm_fp32 cast_tensor_type nested_norm nested_world in
  exists child,
    modules nested_norm !! 1 = Some child
    /\ is_norm (m_kind child) = false
    /\ m_parameters child = [1]
    /\ (t_dtype ∘ data <$> tensors nested_world !! 1) = Some Half
    /\ (t_dtype ∘ data <$> tensors r.2 !! 1) = Some Float.
Proof.
  intros r. eexists. split; [reflexivity|]. split; [reflexivity|].
  split; [reflexivity|]. split; [reflexivity|]. vm_compute. reflexivity.
Defined.


Lemma before_run_keeps_config_witness :
  dicts world1 !! 0 = Some sgd_cfg
  /\ exists cls, sgd_cfg !! "type" = Some (PStr cls)
                 /\ opt_kwargs (r_optimizer runner1) = delete "type" sgd_cfg.
Proof.
  destruct (before_run_keeps_config cast_tensor_type prepare_hook0 runner0 world0
              (inr runner1) world1 sgd_cfg eq_refl prepared0_returns)
    as [Hsame Hok].
  split; [exact Hsame|].
  destruct (Hok runner1 eq_refl) as (cls & pc & pre & Hty & Hopt & _).
  exists cls. split; [exact Hty|]. by rewrite Hopt.
Defined.




Lemma master_copy_requires_grad_witness :
  exists param_copy,
    param_groups (r_optimizer runner1) = [param_copy]
    /\ length param_copy = 4.
Proof.
  destruct (@master_copy_requires_grad single_worker cast_tensor_type prepare_hook0 runner0 world0
              runner1 world1 ltac:(vm_compute; reflexivity) prepared0_returns)
    as (pc & Hgroups & Hlen & _).
  exists pc. split; [exact Hgroups|exact Hlen].
Defined.


(** ** Further runs on the reference instantiation *)

Lemma wrapped0_returns :
  wrap_fp16_model cast_tensor_type net0 world0 = (inr net1, wrapped0.2).
Proof.
  rewrite (run_pair (wrap_fp16_model _ _) world0). fold wrapped0. unfold net1.
  assert (H : exists m, wrapped0.1 = inr m).
  { destruct (wrapped0.1) eqn:E; [|by eexists]. vm_compute in E. discriminate. }
  destruct H as [m ->]. done.
Defined.

Lemma prepared1_returns :
  before_run cast_tensor_type prepare_hook0 runner1 world1 = (inr runner2, world2).
Proof.
  rewrite (run_pair (before_run _ _ _) world1). fold prepared1. unfold world2, runner2.
  assert (H : exists r, prepared1.1 = inr r).
  { destruct (prepared1.1) eqn:E; [|by eexists]. vm_compute in E. discriminate. }
  destruct H as [r ->]. done.
Defined.

Lemma two_params_parameters : dp_parameters two_params = [0; 1].
Proof. vm_compute. reflexivity. Defined.

Lemma masters_not_parameters p : p ∈ [2; 3] -> p ∉ dp_parameters two_params.
Proof.
  rewrite two_params_parameters. revert p. apply Forall_forall.
  apply (bool_decide_unpack _). vm_compute. exact I.
Defined.

Lemma parameters_not_masters p : p ∈ dp_parameters two_params -> p ∉ [2; 3].
Proof.
  rewrite two_params_parameters. revert p. apply Forall_forall.
  apply (bool_decide_unpack _). vm_compute. exact I.
Defined.

Lemma masters_distinct : NoDup [2; 3].
Proof. apply (bool_decide_unpack _). vm_compute. exact I. Defined.

Lemma wrap_fp16_model_spec_witness :
  exists m' w' t0 t1,
    wrap_fp16_model cast_tensor_type net0 world0 = (inr m', w')
    /\ tensors w' !! 0 = Some t0 /\ dtypes_of t0 = (Half, None)
    /\ tensors w' !! 1 = Some t1 /\ dtypes_of t1 = (Float, None)
    /\ log w' = [EvHalf [0; 1; 2; 3]; EvFloat [1; 2]].
Proof.
  destruct (@wrap_fp16_model_spec single_worker cast_tensor_type net0 world0
              ltac:(vm_compute; reflexivity))
    as (m' & w' & Hrun & _ & Hparams & _ & _ & _ & Hlog).
  destruct (Hparams 0 ltac:(apply (bool_decide_unpack _); vm_compute; exact I))
    as (t0 & t0' & Ht0 & Ht0' & Hd0 & _).
  destruct (Hparams 1 ltac:(apply (bool_decide_unpack _); vm_compute; exact I))
    as (t1 & t1' & Ht1 & Ht1' & Hd1 & _).
  cbn in Ht0, Ht1. injection Ht0 as <-. injection Ht1 as <-.
  exists m', w', t0', t1'. split; [exact Hrun|].
  split; [exact Ht0'|]. split; [exact Hd0|].
  split; [exact Ht1'|]. split; [exact Hd1|exact Hlog].
Defined.

Lemma wrap_fp16_model_twice_witness :
  exists m2 w2,
    wrap_fp16_model cast_tensor_type net1 wrapped0.2 = (inr m2, w2)
    /\ map dtypes_of (tensors w2) = map dtypes_of (tensors wrapped0.2)
    /\ tensors w2 !! 0 = tensors wrapped0.2 !! 0.
Proof.
  destruct (@wrap_fp16_model_twice single_worker cast_tensor_type net0 world0 net1 wrapped0.2
              ltac:(vm_compute; reflexivity) wrapped0_returns)
    as (m2 & w2 & Hrun & Hdtypes & _ & Hsame & _).
  exists m2, w2. split; [exact Hrun|]. split; [exact Hdtypes|].
  apply Hsame. apply (bool_decide_unpack _). vm_compute. exact I.
Defined.

Lemma copy_in_params_effect_witness :
  tensors (copy_in_params two_params [2; 3] world_grads).2 !! 0
  = Some (TensorObj (TData Half [2] [q 1 1; q 2 1])
                    (Some (TData Half [2] [q 128 1; q (-1536) 1])) true).
Proof.
  exact (proj1 (copy_in_params_effect two_params [2; 3] world_grads
                  (copy_in_params two_params [2; 3] world_grads).2
                  masters_not_parameters
                  (run_returns (copy_in_params two_params [2; 3]) world_grads tt
                               ltac:(vm_compute; reflexivity))
                  0 0 2
                  (TensorObj (TData Half [2] [q 1 1; q 2 1])
                             (Some (TData Half [2] [q 128 1; q (-1536) 1])) true)
                  (TensorObj (TData Float [2] [q 1 1; q 2 1]) None true)
                  ltac:(rewrite two_params_parameters; reflexivity) eq_refl
                  eq_refl eq_refl eq_refl)).
Defined.

Lemma set_grad_effect_witness :
  tensors (set_grad two_params [2; 3] world_grads).2 !! 2
  = Some (TensorObj (TData Float [2] [q 1 1; q 2 1])
                    (Some (TData Float [2] [q 128 1; q (-1536) 1])) true).
Proof.
  exact (proj2 (@set_grad_effect single_worker two_params [2; 3] world_grads
                  (set_grad two_params [2; 3] world_grads).2
                  masters_distinct parameters_not_masters
                  (run_returns (@set_grad single_worker two_params [2; 3]) world_grads tt
                               ltac:(vm_compute; reflexivity))
                  0 2 0
                  (TensorObj (TData Float [2] [q 1 1; q 2 1]) None true)
                  (TensorObj (TData Half [2] [q 1 1; q 2 1])
                             (Some (TData Half [2] [q 128 1; q (-1536) 1])) true)
                  eq_refl ltac:(rewrite two_params_parameters; reflexivity)
                  eq_refl eq_refl)
               eq_refl).
Defined.


Lemma after_train_iter_early_exits_witness :
  after_train_iter optimizer_hook0 runner_no_groups world1 = (inl IndexError, world1)
  /\ (exists w', after_train_iter optimizer_hook0 runner_no_loss world1
                 = (inl (KeyError "loss"), w')
                 /\ log w' = log world1 ++ [EvModelZeroGrad; EvOptimizerZeroGrad])
  /\ (exists w', after_train_iter optimizer_hook0 runner_detached world1
                 = (inl (RuntimeError
                           "element 0 of tensors does not require grad and does not have a grad_fn"),
                    w')).
Proof.
  split; [|split].
  - exact (proj1 (@after_train_iter_early_exits single_worker optimizer_hook0
                    runner_no_groups world1) eq_refl).
  - destruct (proj2 (@after_train_iter_early_exits single_worker optimizer_hook0
                       runner_no_loss world1)
                [4; 5; 6; 7] [] runner1_groups ltac:(vm_compute; reflexivity))
      as (Hkey & _ & _).
    eexists. split; [exact (Hkey eq_refl)|reflexivity].
  - destruct (proj2 (@after_train_iter_early_exits single_worker optimizer_hook0
                       runner_detached world1)
                [4; 5; 6; 7] [] runner1_groups ltac:(vm_compute; reflexivity))
      as (_ & Hdetached & _).
    eexists. exact (Hdetached (q 5 1) eq_refl).
Defined.

Lemma before_run_fails_after_conversion_witness :
  let r := before_run cast_tensor_type prepare_hook0 runner0 world_lamb in
  r.1 = inl (AttributeError "Lamb")
  /\ tensors r.2 = prepared_store net0 (tensors world_lamb)
  /\ dicts r.2 !! 0 = Some lamb_cfg.
Proof.
  intros r.
  assert (Hfail : r.1 = inl (AttributeError "Lamb")) by (vm_compute; reflexivity).
  split; [exact Hfail|].
  destruct (@before_run_fails_after_conversion single_worker cast_tensor_type
              prepare_hook0 runner0 world_lamb lamb_cfg (AttributeError "Lamb") r.2
              ltac:(vm_compute; reflexivity) eq_refl
              (run_raises (before_run cast_tensor_type prepare_hook0 runner0) world_lamb
                          (AttributeError "Lamb") Hfail))
    as (Hstore & Hcfg & _).
  split; [exact Hstore|exact Hcfg].
Defined.

Lemma unused_parameter_gets_zero_witness :
  exists t,
    tensors (gradients_for_step plain_hook runner1 world1).2 !! 6 = Some t
    /\ match grad t with
       | None => True
       | Some g => Forall (fun x => x = 0%Qc) (t_vals g)
       end.
Proof.
  exact (@unused_parameter_gets_zero single_worker plain_hook runner1 [4; 5; 6; 7] [] (q 5 1)
           [ (0, [q 1 4; q (-3) 1]); (1, [q 2 1]); (3, [q 1 8; q 7 1]) ]
           world1 [4; 5; 6; 7] (gradients_for_step plain_hook runner1 world1).2
           eq_refl eq_refl loss_scale_nonzero runner1_groups
           ltac:(vm_compute; reflexivity) ltac:(vm_compute; reflexivity)
           (run_returns (@gradients_for_step single_worker plain_hook runner1) world1
                        [4; 5; 6; 7] ltac:(vm_compute; reflexivity))
           2 6 2 eq_refl ltac:(rewrite runner1_parameters; reflexivity)
           ltac:(apply (bool_decide_unpack _); vm_compute; exact I)).
Defined.

Lemma patch_norm_fp32_without_norm_witness :
  patch_norm_fp32 cast_tensor_type (module_of two_params) world_grads
  = (inr (module_of two_params), world_grads).
Proof.
  apply (@patch_norm_fp32_without_norm cast_tensor_type (module_of two_params)).
  repeat constructor.
Defined.

Lemma before_run_again_witness :
  exists param_copy2 c t,
    param_groups (r_optimizer runner2) = [param_copy2]
    /\ param_copy2 !! 0 = Some c
    /\ tensors world2 !! c = Some t
    /\ t_dtype (data t) = Half.
Proof.
  destruct (@before_run_again single_worker cast_tensor_type prepare_hook0 runner0 world0
              runner1 world1 runner2 world2
              ltac:(vm_compute; reflexivity) prepared0_returns prepared1_returns)
    as (pc & Hgroups & _ & Hclones).
  destruct (Hclones 0 0 ltac:(vm_compute; reflexivity)) as (c & t & Hc & Ht & Hty).
  exists pc, c, t. split; [exact Hgroups|]. split; [exact Hc|]. split; [exact Ht|].
  exact Hty.
Defined.
